(** * Cronzee: the health-check state engine, its history store and the
    endpoint registry, embedded from the Go sources
    (monitor.go, database.go, server.go).

    Conventions of the embedding.
    - Go's [int], [int64] and [time.Duration] are 64-bit: they are modelled
      as [Z] and every arithmetic operation the code performs on them is
      written with its wrap-around ([int_add]).
    - A [time.Time] is the instant it denotes, counted in nanoseconds since
      the Unix epoch (what [UnixNano] returns); [Before] compares instants.
      The time zone of the process, [time.Local], is a parameter: a
      [Location] answers for an instant as [Location.lookup] does.
    - Go strings are byte sequences: [string].  Go maps are [gmap]s.  A
      bbolt bucket is a finite map from keys to values whose cursor walks
      the keys in byte-lexicographic order.
    - [encoding/json] is abstracted: a stored value is either the document
      of a record ([Doc]) or bytes that do not decode ([Malformed]).
    - The mutexes of the code are not modelled: every function below is one
      critical section of the source, run to completion. *)

From Stdlib Require Import ZArith Lia Bool Ascii.
From stdpp Require Import base option list gmap strings pretty sorting.

Local Open Scope string_scope.
Local Open Scope Z_scope.

(** ** Machine integers and time *)

Definition max_int64 : Z := 9223372036854775807.
Definition min_int64 : Z := -9223372036854775808.

(** The value a 64-bit two's complement register holds for [z]. *)
Definition wrap64 (z : Z) : Z := (z + 2 ^ 63) mod 2 ^ 64 - 2 ^ 63.

(** Go's [+] on [int]. *)
Definition int_add (a b : Z) : Z := wrap64 (a + b).

Definition in_int64 (z : Z) : Prop := min_int64 <= z <= max_int64.

(** [time.Time] and [time.Duration]. *)
Definition Time := Z.
Definition Duration := Z.

Definition Nanosecond : Duration := 1.
Definition Second : Duration := 1000000000.
Definition Hour : Duration := 3600 * Second.

(** [t.Add(d)] *)
Definition time_Add (t : Time) (d : Duration) : Time := t + d.

(** [t.Sub(u)]: the difference, saturated to the range of a Duration. *)
Definition time_Sub (t u : Time) : Duration :=
  Z.max min_int64 (Z.min max_int64 (t - u)).

(** [t.Before(u)] *)
Definition time_Before (t u : Time) : bool := t <? u.

(** A [*time.Location], as [Location.lookup] answers for an instant given
    in seconds since the epoch: the offset east of UTC in force at that
    instant, in seconds, and the instants between which that offset is
    in force, the first included and the second not. *)
Record Location : Type := mkLocation {
  lookup : Z -> Z * Z * Z
}.

Definition zone_offset (loc : Location) (sec : Z) : Z := (lookup loc sec).1.1.

(** [time.UTC]: offset 0 at every instant. *)
Definition time_UTC : Location :=
  mkLocation (fun _ => (0, min_int64, max_int64)).

Definition secondsPerDay : Z := 86400.

(** [t.AddDate(0, 0, days)] for a time [t] of location [loc].  The date
    and the clock of [t] are read in [loc], that is from the seconds of
    [t] plus the offset in force at [t]; the days are added to the date;
    and [time.Date] turns date and clock back into an instant: it takes
    them for UTC, looks up the offset in force at the instant that gives,
    and where the instant so corrected falls outside the period of that
    offset, looks up the offset once more at the corrected instant.  The
    nanoseconds are kept. *)
Definition time_AddDate_days (loc : Location) (t : Time) (days : Z) : Time :=
  let sec := t `div` Second in
  let nsec := t `mod` Second in
  let abs := sec + zone_offset loc sec in
  let unix := abs + days * secondsPerDay in
  let '(offset, start, end_) := lookup loc unix in
  let unix :=
    if offset =? 0 then unix
    else
      let utc := unix - offset in
      let offset :=
        if (utc <? start) || (end_ <=? utc) then zone_offset loc utc
        else offset in
      unix - offset in
  unix * Second + nsec.

(** [t.UnixNano()]: an [int64]. *)
Definition time_UnixNano (t : Time) : Z := wrap64 t.

(** The zero [time.Time], January 1 of year 1, and [t.IsZero()]. *)
Definition time_Zero : Time := -62135596800 * Second.
Definition time_IsZero (t : Time) : bool := t =? time_Zero.

(** The verb [%d] of [fmt.Sprintf]: a decimal numeral, with a minus sign
    for a negative number. *)
Definition fmt_d (z : Z) : string := pretty z.
Global Arguments fmt_d : simpl never.

(** ** monitor.go: statuses, endpoints and runtime state *)

Inductive HealthStatus : Type :=
  | StatusHealthy
  | StatusUnhealthy
  | StatusUnknown.

Global Instance HealthStatus_eq_dec : EqDecision HealthStatus.
Proof. solve_decision. Defined.

(** [a == b] on statuses. *)
Definition HealthStatus_eqb (a b : HealthStatus) : bool :=
  match a, b with
  | StatusHealthy, StatusHealthy => true
  | StatusUnhealthy, StatusUnhealthy => true
  | StatusUnknown, StatusUnknown => true
  | _, _ => false
  end.

(** [string(status)] *)
Definition HealthStatus_string (s : HealthStatus) : string :=
  match s with
  | StatusHealthy => "healthy"
  | StatusUnhealthy => "unhealthy"
  | StatusUnknown => "unknown"
  end.

Module Endpoint.
Record t : Type := mk {
  Name : string;
  URL : string;
  Method : string;
  Timeout : Duration;
  ExpectedStatus : Z;
  Headers : gmap string string;
  FailureThreshold : Z;
  SuccessThreshold : Z
}.
End Endpoint.

Module EndpointState.
Record t : Type := mk {
  Endpoint : Endpoint.t;
  Status : HealthStatus;
  LastCheck : Time;
  LastStatusChange : Time;
  ConsecutiveFailures : Z;
  ConsecutiveSuccesses : Z;
  ResponseTime : Duration;
  LastError : string;
  Enabled : bool;
  AlertsSuppressed : bool;
  ID : string;
  CheckInterval : Duration;
  NextCheck : Time
}.

(** Field assignments [state.F = v]. *)
Definition set_Status (v : HealthStatus) (s : t) : t :=
  mk (Endpoint s) v (LastCheck s) (LastStatusChange s)
     (ConsecutiveFailures s) (ConsecutiveSuccesses s) (ResponseTime s)
     (LastError s) (Enabled s) (AlertsSuppressed s) (ID s)
     (CheckInterval s) (NextCheck s).
Definition set_LastCheck (v : Time) (s : t) : t :=
  mk (Endpoint s) (Status s) v (LastStatusChange s)
     (ConsecutiveFailures s) (ConsecutiveSuccesses s) (ResponseTime s)
     (LastError s) (Enabled s) (AlertsSuppressed s) (ID s)
     (CheckInterval s) (NextCheck s).
Definition set_LastStatusChange (v : Time) (s : t) : t :=
  mk (Endpoint s) (Status s) (LastCheck s) v
     (ConsecutiveFailures s) (ConsecutiveSuccesses s) (ResponseTime s)
     (LastError s) (Enabled s) (AlertsSuppressed s) (ID s)
     (CheckInterval s) (NextCheck s).
Definition set_ConsecutiveFailures (v : Z) (s : t) : t :=
  mk (Endpoint s) (Status s) (LastCheck s) (LastStatusChange s)
     v (ConsecutiveSuccesses s) (ResponseTime s)
     (LastError s) (Enabled s) (AlertsSuppressed s) (ID s)
     (CheckInterval s) (NextCheck s).
Definition set_ConsecutiveSuccesses (v : Z) (s : t) : t :=
  mk (Endpoint s) (Status s) (LastCheck s) (LastStatusChange s)
     (ConsecutiveFailures s) v (ResponseTime s)
     (LastError s) (Enabled s) (AlertsSuppressed s) (ID s)
     (CheckInterval s) (NextCheck s).
Definition set_ResponseTime (v : Duration) (s : t) : t :=
  mk (Endpoint s) (Status s) (LastCheck s) (LastStatusChange s)
     (ConsecutiveFailures s) (ConsecutiveSuccesses s) v
     (LastError s) (Enabled s) (AlertsSuppressed s) (ID s)
     (CheckInterval s) (NextCheck s).
Definition set_LastError (v : string) (s : t) : t :=
  mk (Endpoint s) (Status s) (LastCheck s) (LastStatusChange s)
     (ConsecutiveFailures s) (ConsecutiveSuccesses s) (ResponseTime s)
     v (Enabled s) (AlertsSuppressed s) (ID s)
     (CheckInterval s) (NextCheck s).
Definition set_NextCheck (v : Time) (s : t) : t :=
  mk (Endpoint s) (Status s) (LastCheck s) (LastStatusChange s)
     (ConsecutiveFailures s) (ConsecutiveSuccesses s) (ResponseTime s)
     (LastError s) (Enabled s) (AlertsSuppressed s) (ID s)
     (CheckInterval s) v.
End EndpointState.

(** ** database.go: stored records *)

Module StoredEndpoint.
Record t : Type := mk {
  ID : string;
  Name : string;
  URL : string;
  Method : string;
  Timeout : Duration;
  CheckInterval : Duration;
  ExpectedStatus : Z;
  Headers : gmap string string;
  FailureThreshold : Z;
  SuccessThreshold : Z;
  Enabled : bool;
  AlertsSuppressed : bool;
  CreatedAt : Time;
  UpdatedAt : Time
}.

(** [s.ToEndpoint()] *)
Definition ToEndpoint (s : t) : Endpoint.t :=
  Endpoint.mk (Name s) (URL s) (Method s) (Timeout s) (ExpectedStatus s)
              (Headers s) (FailureThreshold s) (SuccessThreshold s).
End StoredEndpoint.

Module HealthCheckRecord.
Record t : Type := mk {
  EndpointID : string;
  Timestamp : Time;
  Status : string;
  ResponseTime : Duration;
  StatusCode : Z;
  Error : string
}.
End HealthCheckRecord.

(** ** The persistent store (bbolt) and the JSON codec *)

(** Go's [error] values are represented by their message. *)
Definition error := string.

Inductive Encoded (A : Type) : Type :=
  | Doc (a : A)
  | Malformed (raw : string).
Arguments Doc {A} a.
Arguments Malformed {A} raw.

(** [json.Marshal(v)] *)
Definition json_Marshal {A : Type} (a : A) : Encoded A := Doc a.

(** [json.Unmarshal(data, &v)]: [None] is a decoding error. *)
Definition json_Unmarshal {A : Type} (data : Encoded A) : option A :=
  match data with
  | Doc a => Some a
  | Malformed _ => None
  end.

(** A bucket maps keys to values; its cursor visits the keys in
    byte-lexicographic order. *)
Abbreviation Bucket V := (gmap string V).

Definition MaxKeySize : Z := 32768.

(** [b.Put(key, value)] *)
Definition bucket_Put {V : Type} (key : string) (value : V) (b : Bucket V)
  : error + Bucket V :=
  if decide (key = "") then inl "key required"
  else if MaxKeySize <? Z.of_nat (String.length key) then inl "key too large"
  else inr (<[key := value]> b).

(** [b.Get(key)] *)
Definition bucket_Get {V : Type} (key : string) (b : Bucket V) : option V :=
  b !! key.

(** [b.Delete(key)]: deleting a key that is absent is not an error. *)
Definition bucket_Delete {V : Type} (key : string) (b : Bucket V)
  : error + Bucket V :=
  inr (delete key b).

Definition key_le {V : Type} (x y : string * V) : Prop := String.le x.1 y.1.

Global Instance key_le_dec {V : Type} : RelDecision (@key_le V).
Proof. intros x y. unfold key_le. apply _. Defined.

(** The sequence a cursor yields from [c.First()] by [c.Next()]. *)
Definition bucket_cursor {V : Type} (b : Bucket V) : list (string * V) :=
  merge_sort key_le (map_to_list b).

(** [c.Seek(seek)]: the cursor from the first key that is [>= seek]. *)
Fixpoint cursor_Seek {V : Type} (seek : string) (c : list (string * V))
  : list (string * V) :=
  match c with
  | [] => []
  | kv :: rest =>
      if String.ltb kv.1 seek then cursor_Seek seek rest else kv :: rest
  end.

Record Database : Type := mkDatabase {
  endpoints : Bucket (Encoded StoredEndpoint.t);
  history : Bucket (Encoded HealthCheckRecord.t)
}.

Definition set_endpoints (b : Bucket (Encoded StoredEndpoint.t))
  (d : Database) : Database := mkDatabase b (history d).
Definition set_history (b : Bucket (Encoded HealthCheckRecord.t))
  (d : Database) : Database := mkDatabase (endpoints d) b.

Definition DataRetentionDays : Z := 3.

(** [SaveHealthCheckRecord] *)
Definition SaveHealthCheckRecord (record : HealthCheckRecord.t) (d : Database)
  : error + Database :=
  let b := history d in
  let key := HealthCheckRecord.EndpointID record ++ ":"
             ++ fmt_d (time_UnixNano (HealthCheckRecord.Timestamp record)) in
  let data := json_Marshal record in
  match bucket_Put key data b with
  | inl err => inl err
  | inr b' => inr (set_history b' d)
  end.

(** [k] starts with [prefix]:
    [len(k) >= len(prefix) && string(k[:len(prefix)]) == string(prefix)] *)
Definition has_prefix (prefix k : string) : bool :=
  (String.length prefix <=? String.length k)%nat
  && String.eqb (String.substring 0 (String.length prefix) k) prefix.

(** The scan loop of [GetHealthHistory], from the position of the cursor:
    it stops at the first key without the prefix and skips values that do
    not decode. *)
Fixpoint scan_prefix (prefix : string)
  (c : list (string * Encoded HealthCheckRecord.t))
  (records : list HealthCheckRecord.t) : list HealthCheckRecord.t :=
  match c with
  | [] => records
  | (k, v) :: rest =>
      if has_prefix prefix k then
        match json_Unmarshal v with
        | None => scan_prefix prefix rest records
        | Some record => scan_prefix prefix rest (records ++ [record])
        end
      else records
  end.

(** [records[i], records[j] = records[j], records[i]] *)
Definition swap {A : Type} (i j : nat) (l : list A) : list A :=
  match l !! i, l !! j with
  | Some x, Some y => <[j := x]> (<[i := y]> l)
  | _, _ => l
  end.

(** [for i, j := 0, len(records)-1; i < j; i, j = i+1, j-1 { swap }];
    the second argument is [j + 1], so that an empty slice needs no
    negative index. *)
Fixpoint reverse_loop {A : Type} (fuel i j1 : nat) (records : list A)
  : list A :=
  match fuel with
  | O => records
  | S fuel' =>
      if (S i <? j1)%nat
      then reverse_loop fuel' (S i) (pred j1) (swap i (pred j1) records)
      else records
  end.

Definition reverse_in_place {A : Type} (records : list A) : list A :=
  reverse_loop (length records) 0 (length records) records.

(** [GetHealthHistory] *)
Definition GetHealthHistory (endpointID : string) (limit : Z) (d : Database)
  : list HealthCheckRecord.t :=
  let prefix := endpointID ++ ":" in
  let c := cursor_Seek prefix (bucket_cursor (history d)) in
  let records := scan_prefix prefix c [] in
  let records := reverse_in_place records in
  if (0 <? limit) && (limit <? Z.of_nat (length records))
  then take (Z.to_nat limit) records
  else records.

(** The first loop of [CleanupOldData]: the keys of the records that are
    older than the cutoff. *)
Fixpoint old_keys (cutoff : Time)
  (c : list (string * Encoded HealthCheckRecord.t))
  (keysToDelete : list string) : list string :=
  match c with
  | [] => keysToDelete
  | (k, v) :: rest =>
      match json_Unmarshal v with
      | None => old_keys cutoff rest keysToDelete
      | Some record =>
          if time_Before (HealthCheckRecord.Timestamp record) cutoff
          then old_keys cutoff rest (keysToDelete ++ [k])
          else old_keys cutoff rest keysToDelete
      end
  end.

(** The second loop: delete the collected keys, counting them. *)
Fixpoint delete_keys {V : Type} (keysToDelete : list string) (b : Bucket V)
  (deletedCount : Z) : error + (Bucket V * Z) :=
  match keysToDelete with
  | [] => inr (b, deletedCount)
  | key :: rest =>
      match bucket_Delete key b with
      | inl err => inl err
      | inr b' => delete_keys rest b' (int_add deletedCount 1)
      end
  end.

(** [CleanupOldData], run at the instant [now] by a process whose
    [time.Local] is [Local]: [time.Now()] is a time of that location.  A
    failed transaction leaves the database as it was. *)
Definition CleanupOldData (Local : Location) (now : Time) (d : Database)
  : option error * Database :=
  let cutoff := time_AddDate_days Local now (- DataRetentionDays) in
  let b := history d in
  let keysToDelete := old_keys cutoff (bucket_cursor b) [] in
  match delete_keys keysToDelete b 0 with
  | inl err => (Some err, d)
  | inr (b', deletedCount) => (None, set_history b' d)
  end.

(** [SaveEndpoint]: fills in the timestamps and the defaults of the
    endpoint it is given (the caller sees them: the argument is a pointer)
    and stores it under its ID. *)
Definition SaveEndpoint (now : Time) (endpoint : StoredEndpoint.t)
  (d : Database) : StoredEndpoint.t * (error + Database) :=
  let b := endpoints d in
  let endpoint :=
    StoredEndpoint.mk
      (StoredEndpoint.ID endpoint)
      (StoredEndpoint.Name endpoint)
      (StoredEndpoint.URL endpoint)
      (if decide (StoredEndpoint.Method endpoint = "") then "GET"
       else StoredEndpoint.Method endpoint)
      (if StoredEndpoint.Timeout endpoint =? 0 then 10 * Second
       else StoredEndpoint.Timeout endpoint)
      (if StoredEndpoint.CheckInterval endpoint =? 0 then 30 * Second
       else StoredEndpoint.CheckInterval endpoint)
      (if StoredEndpoint.ExpectedStatus endpoint =? 0 then 200
       else StoredEndpoint.ExpectedStatus endpoint)
      (StoredEndpoint.Headers endpoint)
      (if StoredEndpoint.FailureThreshold endpoint =? 0 then 3
       else StoredEndpoint.FailureThreshold endpoint)
      (if StoredEndpoint.SuccessThreshold endpoint =? 0 then 2
       else StoredEndpoint.SuccessThreshold endpoint)
      (StoredEndpoint.Enabled endpoint)
      (StoredEndpoint.AlertsSuppressed endpoint)
      (if time_IsZero (StoredEndpoint.CreatedAt endpoint) then now
       else StoredEndpoint.CreatedAt endpoint)
      now in
  let data := json_Marshal endpoint in
  match bucket_Put (StoredEndpoint.ID endpoint) data b with
  | inl err => (endpoint, inl err)
  | inr b' => (endpoint, inr (set_endpoints b' d))
  end.

(** [GetEndpoint] *)
Definition GetEndpoint (id : string) (d : Database)
  : error + StoredEndpoint.t :=
  match bucket_Get id (endpoints d) with
  | None => inl ("endpoint not found: " ++ id)
  | Some data =>
      match json_Unmarshal data with
      | None => inl "invalid character"
      | Some endpoint => inr endpoint
      end
  end.

(** The [ForEach] callback of [GetAllEndpoints], over the cursor. *)
Fixpoint unmarshal_each (c : list (string * Encoded StoredEndpoint.t))
  (endpoints : list StoredEndpoint.t) : error + list StoredEndpoint.t :=
  match c with
  | [] => inr endpoints
  | (k, v) :: rest =>
      match json_Unmarshal v with
      | None => inl "invalid character"
      | Some endpoint => unmarshal_each rest (endpoints ++ [endpoint])
      end
  end.

(** [GetAllEndpoints]: on an error the returned slice is nil. *)
Definition GetAllEndpoints (d : Database)
  : list StoredEndpoint.t * option error :=
  match unmarshal_each (bucket_cursor (endpoints d)) [] with
  | inl err => ([], Some err)
  | inr endpoints => (endpoints, None)
  end.

(** [DeleteEndpoint] *)
Definition DeleteEndpoint (id : string) (d : Database)
  : option error * Database :=
  match bucket_Delete id (endpoints d) with
  | inl err => (Some err, d)
  | inr b' => (None, set_endpoints b' d)
  end.

(** *** [generateIDWithURL]

    The source ranges over the runes of its strings.  A byte below 0x80 is
    always a rune of its own, and every other byte belongs to a rune that
    is neither a letter, a digit nor one of the separators (or is invalid
    and decodes to U+FFFD): ranging over the bytes keeps and drops the same
    characters. *)

Definition is_alnum (c : ascii) : bool :=
  (Ascii.leb "a" c && Ascii.leb c "z")
  || (Ascii.leb "A" c && Ascii.leb c "Z")
  || (Ascii.leb "0" c && Ascii.leb c "9").

Definition is_separator (c : ascii) : bool :=
  Ascii.eqb c " " || Ascii.eqb c "-" || Ascii.eqb c "_"
  || Ascii.eqb c "/" || Ascii.eqb c ":" || Ascii.eqb c ".".

(** First loop: keep letters and digits, turn separators into dashes. *)
Fixpoint sanitize_loop (combined id : string) : string :=
  match combined with
  | EmptyString => id
  | String c rest =>
      if is_alnum c then sanitize_loop rest (id ++ String c "")
      else if is_separator c then sanitize_loop rest (id ++ "-")
      else sanitize_loop rest id
  end.

(** Second loop: drop a dash that follows a dash. *)
Fixpoint collapse_loop (id result : string) (prevDash : bool) : string :=
  match id with
  | EmptyString => result
  | String c rest =>
      if Ascii.eqb c "-" then
        collapse_loop rest
          (if negb prevDash then result ++ String c "" else result) true
      else collapse_loop rest (result ++ String c "") false
  end.

(** Third loop:
    [for len(result) > 0 && result[len(result)-1] == '-'
       { result = result[:len(result)-1] }]. *)
Fixpoint trim_loop (fuel : nat) (result : string) : string :=
  match fuel with
  | O => result
  | S fuel' =>
      match String.get (String.length result - 1) result with
      | Some c =>
          if (0 <? String.length result)%nat && Ascii.eqb c "-"
          then trim_loop fuel'
                 (String.substring 0 (String.length result - 1) result)
          else result
      | None => result
      end
  end.

Definition generateIDWithURL (name url : string) : string :=
  let combined := name ++ "-" ++ url in
  let id := sanitize_loop combined "" in
  let result := collapse_loop id "" false in
  trim_loop (String.length result) result.

(** ** monitor.go: the monitor *)

Inductive AlertKind : Type :=
  | FailureAlert
  | RecoveryAlert.

(** One call received by the alerter: which method, with which endpoint
    and which state. *)
Record Alert : Type := mkAlert {
  alert_kind : AlertKind;
  alert_endpoint : Endpoint.t;
  alert_state : EndpointState.t
}.

(** The monitor, together with what its methods act on: the calls its
    alerter has received so far, and the process clock as the sequence of
    readings [time.Now()] returns. *)
Record Monitor : Type := mkMonitor {
  config_CheckInterval : Duration;
  states : gmap string EndpointState.t;
  alerter : list Alert;
  db : option Database;
  clock : nat -> Time;
  clock_reads : nat
}.

Definition set_states (v : gmap string EndpointState.t) (m : Monitor)
  : Monitor :=
  mkMonitor (config_CheckInterval m) v (alerter m) (db m) (clock m)
            (clock_reads m).
Definition set_alerter (v : list Alert) (m : Monitor) : Monitor :=
  mkMonitor (config_CheckInterval m) (states m) v (db m) (clock m)
            (clock_reads m).
Definition set_db (v : option Database) (m : Monitor) : Monitor :=
  mkMonitor (config_CheckInterval m) (states m) (alerter m) v (clock m)
            (clock_reads m).
Definition set_clock_reads (v : nat) (m : Monitor) : Monitor :=
  mkMonitor (config_CheckInterval m) (states m) (alerter m) (db m) (clock m)
            v.

(** Methods of the monitor are state transformers. *)
Definition M (A : Type) : Type := Monitor -> A * Monitor.

Global Instance M_ret : MRet M := fun A (a : A) (m : Monitor) => (a, m).
Global Instance M_bind : MBind M :=
  fun A B (f : A -> M B) (c : M A) (m : Monitor) =>
    let (a, m') := c m in f a m'.

(** [time.Now()] *)
Definition time_Now : M Time :=
  fun m => (clock m (clock_reads m), set_clock_reads (S (clock_reads m)) m).

(** [m.alerter.SendFailureAlert(endpoint, state)] and
    [m.alerter.SendRecoveryAlert(endpoint, state)]: the call is recorded;
    what the alerter does with it is outside the monitor. *)
Definition SendFailureAlert (endpoint : Endpoint.t) (state : EndpointState.t)
  : M unit :=
  fun m => (tt, set_alerter (alerter m ++ [mkAlert FailureAlert endpoint state]) m).
Definition SendRecoveryAlert (endpoint : Endpoint.t) (state : EndpointState.t)
  : M unit :=
  fun m => (tt, set_alerter (alerter m ++ [mkAlert RecoveryAlert endpoint state]) m).

(** [saveHealthRecord]: the record literal of the source sets five of the
    six fields; [StatusCode] keeps the zero value of its type. *)
Definition saveHealthRecord (state : EndpointState.t) (errorMsg : string)
  : M unit :=
  fun m =>
    match db m with
    | None => (tt, m)
    | Some d =>
        let record :=
          HealthCheckRecord.mk
            (EndpointState.ID state)
            (EndpointState.LastCheck state)
            (HealthStatus_string (EndpointState.Status state))
            (EndpointState.ResponseTime state)
            0
            errorMsg in
        match SaveHealthCheckRecord record d with
        | inl err => (tt, m)
        | inr d' => (tt, set_db (Some d') m)
        end
    end.

(** [handleCheckSuccess] *)
Definition handleCheckSuccess (state : EndpointState.t)
  (responseTime : Duration) : M EndpointState.t :=
  now ← time_Now;
  let state := EndpointState.set_LastCheck now state in
  now ← time_Now;
  let state :=
    EndpointState.set_NextCheck
      (time_Add now (EndpointState.CheckInterval state)) state in
  let state := EndpointState.set_ResponseTime responseTime state in
  let state := EndpointState.set_ConsecutiveFailures 0 state in
  let state :=
    EndpointState.set_ConsecutiveSuccesses
      (int_add (EndpointState.ConsecutiveSuccesses state) 1) state in
  let state := EndpointState.set_LastError "" state in
  let previousStatus := EndpointState.Status state in
  let state :=
    if Endpoint.SuccessThreshold (EndpointState.Endpoint state)
       <=? EndpointState.ConsecutiveSuccesses state
    then EndpointState.set_Status StatusHealthy state
    else state in
  state ←
    (if HealthStatus_eqb previousStatus StatusUnhealthy
        && HealthStatus_eqb (EndpointState.Status state) StatusHealthy
     then
       now ← time_Now;
       let state := EndpointState.set_LastStatusChange now state in
       (if negb (EndpointState.AlertsSuppressed state)
        then SendRecoveryAlert (EndpointState.Endpoint state) state
        else mret tt) ;;
       mret state
     else mret state);
  saveHealthRecord state "" ;;
  mret state.

(** [handleCheckFailure] *)
Definition handleCheckFailure (state : EndpointState.t) (errorMsg : string)
  (responseTime : Duration) : M EndpointState.t :=
  now ← time_Now;
  let state := EndpointState.set_LastCheck now state in
  now ← time_Now;
  let state :=
    EndpointState.set_NextCheck
      (time_Add now (EndpointState.CheckInterval state)) state in
  let state := EndpointState.set_ResponseTime responseTime state in
  let state := EndpointState.set_ConsecutiveSuccesses 0 state in
  let state :=
    EndpointState.set_ConsecutiveFailures
      (int_add (EndpointState.ConsecutiveFailures state) 1) state in
  let state := EndpointState.set_LastError errorMsg state in
  let previousStatus := EndpointState.Status state in
  let state :=
    if Endpoint.FailureThreshold (EndpointState.Endpoint state)
       <=? EndpointState.ConsecutiveFailures state
    then EndpointState.set_Status StatusUnhealthy state
    else state in
  state ←
    (if negb (HealthStatus_eqb previousStatus StatusUnhealthy)
        && HealthStatus_eqb (EndpointState.Status state) StatusUnhealthy
     then
       now ← time_Now;
       let state := EndpointState.set_LastStatusChange now state in
       (if negb (EndpointState.AlertsSuppressed state)
        then SendFailureAlert (EndpointState.Endpoint state) state
        else mret tt) ;;
       mret state
     else mret state);
  saveHealthRecord state errorMsg ;;
  mret state.

(** What the HTTP library answers to one check: whether
    [http.NewRequestWithContext] builds the request, and what [client.Do]
    returns for it (an error for a transport failure, a timeout or a
    cancellation; otherwise the status code of the response). *)
Record Network : Type := mkNetwork {
  NewRequestWithContext : option error;
  Do : error + Z
}.

(** [time.Since(start)] *)
Definition time_Since (start : Time) : M Duration :=
  now ← time_Now; mret (time_Sub now start).

(** [checkEndpoint] *)
Definition checkEndpoint (state : EndpointState.t) (net : Network)
  : M EndpointState.t :=
  start ← time_Now;
  match NewRequestWithContext net with
  | Some err =>
      handleCheckFailure state ("failed to create request: " ++ err) 0
  | None =>
      let resp := Do net in
      responseTime ← time_Since start;
      match resp with
      | inl err =>
          handleCheckFailure state ("request failed: " ++ err) responseTime
      | inr StatusCode =>
          let expected :=
            Endpoint.ExpectedStatus (EndpointState.Endpoint state) in
          if negb (StatusCode =? expected) then
            handleCheckFailure state
              ("unexpected status code: got " ++ fmt_d StatusCode
               ++ ", expected " ++ fmt_d expected)
              responseTime
          else handleCheckSuccess state responseTime
      end
  end.

(** The runtime state [loadEndpointsFromDB] and [AddEndpoint] build for a
    stored endpoint; the fields the literal leaves out are zero values. *)
Definition fresh_state (stored : StoredEndpoint.t) (checkInterval : Duration)
  (lastCheck nextCheck : Time) : EndpointState.t :=
  EndpointState.mk
    (StoredEndpoint.ToEndpoint stored)
    StatusUnknown
    lastCheck
    time_Zero
    0
    0
    0
    ""
    (StoredEndpoint.Enabled stored)
    (StoredEndpoint.AlertsSuppressed stored)
    (StoredEndpoint.ID stored)
    checkInterval
    nextCheck.

(** [AddEndpoint].  [None] stands for the panic of a monitor whose [db] is
    nil; otherwise the result is the endpoint as [SaveEndpoint] left it and
    the error returned. *)
Definition AddEndpoint (stored : StoredEndpoint.t)
  : M (option (StoredEndpoint.t * option error)) :=
  fun m =>
    match db m with
    | None => (None, m)
    | Some d =>
        let (now, m) := time_Now m in
        let (stored, saved) := SaveEndpoint now stored d in
        match saved with
        | inl err => (Some (stored, Some err), m)
        | inr d' =>
            let m := set_db (Some d') m in
            let checkInterval :=
              if StoredEndpoint.CheckInterval stored =? 0
              then config_CheckInterval m
              else StoredEndpoint.CheckInterval stored in
            let (lastCheck, m) := time_Now m in
            let (nextCheck, m) := time_Now m in
            let m :=
              set_states
                (<[StoredEndpoint.ID stored :=
                     fresh_state stored checkInterval lastCheck nextCheck]>
                   (states m)) m in
            (Some (stored, None), m)
        end
    end.

(** [RemoveEndpoint].  [None] stands for the panic of a monitor whose [db]
    is nil. *)
Definition RemoveEndpoint (id : string) : M (option (option error)) :=
  fun m =>
    match db m with
    | None => (None, m)
    | Some d =>
        match DeleteEndpoint id d with
        | (Some err, _) => (Some (Some err), m)
        | (None, d') =>
            let m := set_db (Some d') m in
            let m := set_states (delete id (states m)) m in
            (Some None, m)
        end
    end.

(** ** server.go: adding an endpoint *)

Module EndpointRequest.
Record t : Type := mk {
  ID : string;
  Name : string;
  URL : string;
  Method : string;
  Timeout : string;
  CheckInterval : string;
  ExpectedStatus : Z;
  Headers : gmap string string;
  FailureThreshold : Z;
  SuccessThreshold : Z
}.
End EndpointRequest.

(** An HTTP request as the handler reads it: its method, and its body as
    [json.NewDecoder(r.Body).Decode(&req)] returns it. *)
Record Request : Type := mkRequest {
  request_Method : string;
  request_Body : error + EndpointRequest.t
}.

Definition StatusOK : Z := 200.
Definition StatusBadRequest : Z := 400.
Definition StatusMethodNotAllowed : Z := 405.
Definition StatusConflict : Z := 409.
Definition StatusInternalServerError : Z := 500.

(** What the handler writes: [http.Error(w, message, code)], or the JSON
    document of a success with the endpoint added. *)
Inductive Response : Type :=
  | http_Error (message : string) (code : Z)
  | Added (endpoint : StoredEndpoint.t).

Definition response_code (r : Response) : Z :=
  match r with
  | http_Error _ code => code
  | Added _ => StatusOK
  end.

(** The loop of [handleAddEndpoint] over the stored endpoints: the first
    endpoint with the name or the URL of the request ends the handler. *)
Fixpoint find_conflict (allEndpoints : list StoredEndpoint.t)
  (req : EndpointRequest.t) : option Response :=
  match allEndpoints with
  | [] => None
  | ep :: rest =>
      if decide (StoredEndpoint.Name ep = EndpointRequest.Name req) then
        Some (http_Error "Endpoint with this name already exists"
                         StatusConflict)
      else if decide (StoredEndpoint.URL ep = EndpointRequest.URL req) then
        Some (http_Error "Endpoint with this URL already exists"
                         StatusConflict)
      else find_conflict rest req
  end.

Section Server.

(** [time.ParseDuration] of the Go library. *)
Variable time_ParseDuration : string -> error + Duration.

(** [handleAddEndpoint].  [s.db] and [s.monitor.db] are the same database:
    [None] stands for the panic when it is nil. *)
Definition handleAddEndpoint (r : Request) : M (option Response) :=
  fun m =>
    if negb (bool_decide (request_Method r = "POST")) then
      (Some (http_Error "Method not allowed" StatusMethodNotAllowed), m)
    else
    match request_Body r with
    | inl err =>
        (Some (http_Error ("Invalid request body: " ++ err) StatusBadRequest),
         m)
    | inr req =>
    if bool_decide (EndpointRequest.Name req = "")
       || bool_decide (EndpointRequest.URL req = "") then
      (Some (http_Error "Name and URL are required" StatusBadRequest), m)
    else
    let id :=
      generateIDWithURL (EndpointRequest.Name req) (EndpointRequest.URL req) in
    match db m with
    | None => (None, m)
    | Some d =>
    let (allEndpoints, _) := GetAllEndpoints d in
    match find_conflict allEndpoints req with
    | Some response => (Some response, m)
    | None =>
    match
      (if bool_decide (EndpointRequest.Timeout req = "") then inr (10 * Second)
       else time_ParseDuration (EndpointRequest.Timeout req))
    with
    | inl err =>
        (Some (http_Error ("Invalid timeout format: " ++ err)
                          StatusBadRequest), m)
    | inr timeout =>
    match
      (if bool_decide (EndpointRequest.CheckInterval req = "")
       then inr (30 * Second)
       else time_ParseDuration (EndpointRequest.CheckInterval req))
    with
    | inl err =>
        (Some (http_Error ("Invalid check_interval format: " ++ err)
                          StatusBadRequest), m)
    | inr checkInterval =>
    let endpoint :=
      StoredEndpoint.mk
        id
        (EndpointRequest.Name req)
        (EndpointRequest.URL req)
        (EndpointRequest.Method req)
        timeout
        checkInterval
        (EndpointRequest.ExpectedStatus req)
        (EndpointRequest.Headers req)
        (EndpointRequest.FailureThreshold req)
        (EndpointRequest.SuccessThreshold req)
        true
        false
        time_Zero
        time_Zero in
    match AddEndpoint endpoint m with
    | (None, m) => (None, m)
    | (Some (endpoint, Some err), m) =>
        (Some (http_Error err StatusInternalServerError), m)
    | (Some (endpoint, None), m) => (Some (Added endpoint), m)
    end
    end end end end end.

End Server.

(** ** Sequences of checks *)

(** The outcome of one check, as [checkEndpoint] hands it to one of the two
    handlers. *)
Inductive Outcome : Type :=
  | Success (responseTime : Duration)
  | Failure (errorMsg : string) (responseTime : Duration).

Definition handle (state : EndpointState.t) (o : Outcome)
  : M EndpointState.t :=
  match o with
  | Success responseTime => handleCheckSuccess state responseTime
  | Failure errorMsg responseTime =>
      handleCheckFailure state errorMsg responseTime
  end.

(** The checks of one endpoint are applied one after the other. *)
Fixpoint run (state : EndpointState.t) (outcomes : list Outcome)
  : M EndpointState.t :=
  match outcomes with
  | [] => mret state
  | o :: rest => state' ← handle state o; run state' rest
  end.

(** How many checks of a run change the status. *)
Fixpoint status_changes (state : EndpointState.t) (outcomes : list Outcome)
  (m : Monitor) : nat :=
  match outcomes with
  | [] => O
  | o :: rest =>
      let (state', m') := handle state o m in
      ((if HealthStatus_eqb (EndpointState.Status state)
                            (EndpointState.Status state')
        then 0 else 1)
       + status_changes state' rest m')%nat
  end.

Definition is_Failure (o : Outcome) : Prop :=
  match o with
  | Failure _ _ => True
  | Success _ => False
  end.

Definition is_Success (o : Outcome) : Prop :=
  match o with
  | Success _ => True
  | Failure _ _ => False
  end.

(** The status is [X] after the check and was not before. *)
Definition becomes (X : HealthStatus) (s s' : EndpointState.t) : Prop :=
  EndpointState.Status s <> X /\ EndpointState.Status s' = X.

(** The counters as the outcomes alone fix them.  After a sequence of
    outcomes the count of consecutive failures is the number of failures
    at the end of the sequence, counted on from [start] when the sequence
    holds no success; a success sets it back to 0.  Likewise for the
    successes.  The count is Go's, on [int]. *)
Definition consecutive_failures (start : Z) (outcomes : list Outcome) : Z :=
  foldl (fun n o =>
           match o with
           | Failure _ _ => int_add n 1
           | Success _ => 0
           end) start outcomes.

Definition consecutive_successes (start : Z) (outcomes : list Outcome) : Z :=
  foldl (fun n o =>
           match o with
           | Success _ => int_add n 1
           | Failure _ _ => 0
           end) start outcomes.

(** The check [o], made after [outcomes] on an endpoint that started in
    [state], is a failure that brings the count of consecutive failures
    to the failure threshold the endpoint was configured with, or above;
    likewise for successes. *)
Definition failures_reach_threshold (state : EndpointState.t)
  (outcomes : list Outcome) (o : Outcome) : Prop :=
  is_Failure o
  /\ Endpoint.FailureThreshold (EndpointState.Endpoint state)
     <= consecutive_failures (EndpointState.ConsecutiveFailures state)
                             (outcomes ++ [o]).

Definition successes_reach_threshold (state : EndpointState.t)
  (outcomes : list Outcome) (o : Outcome) : Prop :=
  is_Success o
  /\ Endpoint.SuccessThreshold (EndpointState.Endpoint state)
     <= consecutive_successes (EndpointState.ConsecutiveSuccesses state)
                              (outcomes ++ [o]).

(** The monitor after [k] more readings of the clock. *)
Definition tick (k : nat) (m : Monitor) : Monitor :=
  set_clock_reads (k + clock_reads m) m.

(** * Definitions used by the statements *)

(** ** Records written by the monitor *)

(** The record [saveHealthRecord] writes for a state. *)
Definition record_of (state : EndpointState.t) (errorMsg : string)
  : HealthCheckRecord.t :=
  HealthCheckRecord.mk (EndpointState.ID state) (EndpointState.LastCheck state)
    (HealthStatus_string (EndpointState.Status state))
    (EndpointState.ResponseTime state) 0 errorMsg.

(** The database of the monitor after [saveHealthRecord]: a failed write
    is logged and leaves it as it was. *)
Definition db_after_save (record : HealthCheckRecord.t) (o : option Database)
  : option Database :=
  match o with
  | None => None
  | Some d =>
      match SaveHealthCheckRecord record d with
      | inl _ => Some d
      | inr d' => Some d'
      end
  end.

(** The key under which [SaveHealthCheckRecord] stores a record. *)
Definition key_of (record : HealthCheckRecord.t) : string :=
  HealthCheckRecord.EndpointID record ++ ":"
  ++ fmt_d (time_UnixNano (HealthCheckRecord.Timestamp record)).

(** [SaveHealthCheckRecord] for a sequence of records, skipping the ones
    the store refuses. *)
Definition save_all (records : list HealthCheckRecord.t) (d : Database)
  : Database :=
  foldl (fun d record =>
           match SaveHealthCheckRecord record d with
           | inl _ => d
           | inr d' => d'
           end) d records.

(** ** Stored values *)

(** Every value of the bucket is the document of a record. *)
Definition decodable {A : Type} (b : Bucket (Encoded A)) : Prop :=
  forall k v, b !! k = Some v -> is_Some (json_Unmarshal v).

(** A value is the document of a record older than the cutoff. *)
Definition expired (cutoff : Time) (v : Encoded HealthCheckRecord.t) : bool :=
  match json_Unmarshal v with
  | Some record => time_Before (HealthCheckRecord.Timestamp record) cutoff
  | None => false
  end.

(** The entries whose key has the prefix, and the records they decode to. *)
Definition with_prefix {V : Type} (prefix : string) (c : list (string * V))
  : list (string * V) :=
  filter (fun kv => has_prefix prefix kv.1 = true) c.

Definition decode_all {A : Type} (c : list (string * Encoded A)) : list A :=
  omap (fun kv => json_Unmarshal kv.2) c.

(** ** Characters of IDs and of numerals *)

(** The characters of a string. *)
Abbreviation chars := String.list_ascii_of_string.

Definition dash : ascii := "-"%char.

(** A letter, a digit or a dash. *)
Definition id_char (c : ascii) : Prop := is_alnum c = true \/ c = dash.

(** The letters and digits of a string, in order. *)
Definition alnums (s : string) : list ascii := List.filter is_alnum (chars s).

(** What the first loop of [generateIDWithURL] appends for a character. *)
Definition keep (c : ascii) : list ascii :=
  if is_alnum c then [c] else if is_separator c then [dash] else [].

(** What the second loop appends for the rest of its input. *)
Fixpoint collapse (id : list ascii) (prevDash : bool) : list ascii :=
  match id with
  | [] => []
  | c :: rest =>
      if Ascii.eqb c dash
      then (if prevDash then [] else [c]) ++ collapse rest true
      else c :: collapse rest false
  end.

(** No dash follows a dash. *)
Fixpoint single_dashes (l : list ascii) : Prop :=
  match l with
  | [] => True
  | c :: rest =>
      (c = dash -> head rest <> Some dash) /\ single_dashes rest
  end.

(** A decimal digit. *)
Definition is_digit (c : ascii) : Prop :=
  exists n : N, (n < 10)%N /\ c = pretty_N_char n.

(** The instants whose [UnixNano] has nineteen digits: from
    2001-09-09T01:46:40Z to the last instant an [int64] counts. *)
Definition nineteen_digits (z : Z) : Prop := 10 ^ 18 <= z <= max_int64.

(** Every entry is the document of a record, stored under the key of
    that record; endpoint IDs have no colon and timestamps have nineteen
    digits. *)
Definition history_wf (b : Bucket (Encoded HealthCheckRecord.t)) : Prop :=
  forall k v,
    b !! k = Some v ->
    exists record,
      v = Doc record
      /\ k = key_of record
      /\ (":"%char ∉ chars (HealthCheckRecord.EndpointID record))
      /\ nineteen_digits (HealthCheckRecord.Timestamp record).

(** ** Concrete endpoints, monitors and stores *)

(** An endpoint with failure threshold 3 and success threshold 2, its
    fresh runtime state, a clock that advances by a second at each
    reading, and a monitor with an empty database. *)
Definition demo_endpoint : Endpoint.t :=
  Endpoint.mk "API" "https://x" "GET" (10 * Second) 200 ∅ 3 2.

Definition demo_state : EndpointState.t :=
  EndpointState.mk demo_endpoint StatusUnknown 0 time_Zero 0 0 0 "" true
    false "API-https-x" (30 * Second) 0.

Definition demo_clock (n : nat) : Time :=
  1700000000 * Second + Z.of_nat n * Second.

Definition demo_monitor : Monitor :=
  mkMonitor (30 * Second) ∅ [] (Some (mkDatabase ∅ ∅)) demo_clock 0.

Definition demo_failure : Outcome := Failure "request failed: timeout" 7.
Definition demo_success : Outcome := Success 5.

(** A network that answers 200. *)
Definition demo_net : Network := mkNetwork None (inr 200).

(** Requests to add an endpoint that give no duration, so that
    [time.ParseDuration] is not consulted, and the endpoint the first of
    them stores. *)
Definition no_duration : string -> error + Duration :=
  fun _ => inl "time: invalid duration".

Definition add_request (name url : string) : Request :=
  mkRequest "POST" (inr (EndpointRequest.mk "" name url "" "" "" 0 ∅ 0 0)).

Definition stored_api : StoredEndpoint.t :=
  StoredEndpoint.mk "API-https-x" "API" "https://x" "GET" (10 * Second)
    (30 * Second) 200 ∅ 3 2 true false (demo_clock 0) (demo_clock 0).

(** Five records of one endpoint, one a day. *)
Definition day (n : Z) : Time := 1700000000 * Second + n * (24 * Hour).

Definition daily_record (n : Z) : HealthCheckRecord.t :=
  HealthCheckRecord.mk "API-https-x" (day n) "healthy" 5 0 "".

Definition five_days : Database :=
  save_all (map daily_record [1; 2; 3; 4; 5]) (mkDatabase ∅ ∅).

(** New York, as the zone database has it between November 2025 and
    March 2027: UTC-5, and UTC-4 from 2026-03-08T07:00Z to
    2026-11-01T06:00Z. *)
Definition new_york : Location :=
  mkLocation (fun sec =>
    if sec <? 1772953200 then (-18000, 1762063200, 1772953200)
    else if sec <? 1793512800 then (-14400, 1772953200, 1793512800)
    else (-18000, 1793512800, 1805007600)).

(** Noon in New York on 2026-03-10, two days after the clocks went
    forward. *)
Definition noon_2026_03_10 : Time := 1773158400 * Second.

(** Three records of one endpoint written a second apart, out of order. *)
Definition record_at (ts : Time) : HealthCheckRecord.t :=
  HealthCheckRecord.mk "API-https-x" ts "healthy" 5 0 "".

Definition three_records : Database :=
  save_all [record_at (demo_clock 2); record_at (demo_clock 1);
            record_at (demo_clock 3)] (mkDatabase ∅ ∅).

(** Two records of one endpoint: one written thirty seconds after the
    epoch, by a host whose clock was not yet set, and one written after
    the clock was set, in 2026.  The decimal numeral of [UnixNano] has 11
    digits for the first and 19 for the second. *)
Definition two_widths : Database :=
  save_all [record_at (30 * Second); record_at (1790000000 * Second)]
           (mkDatabase ∅ ∅).

(** ** Tactics *)

Ltac run_handler :=
  unfold handleCheckSuccess, handleCheckFailure, saveHealthRecord,
    SendRecoveryAlert, SendFailureAlert, time_Now, mbind, mret, M_bind, M_ret.

Ltac handler_cases st sup :=
  cbn; destruct st; cbn; destruct sup; cbn;
  try (match goal with
       | |- context [SaveHealthCheckRecord ?r ?d] =>
           let H := fresh in
           destruct (SaveHealthCheckRecord r d) eqn:H; cbn; rewrite ?H
       end);
  rewrite ?app_nil_r; repeat split; reflexivity.

Ltac each_digit H :=
  repeat (apply elem_of_cons in H as [-> | H]);
  [.. | by apply elem_of_nil in H].

(** * The rest of the store, the registry and the API *)

(** ** database.go: the other operations on endpoints *)

(** Field assignments on a stored endpoint. *)
Definition stored_set_Enabled (v : bool) (s : StoredEndpoint.t)
  : StoredEndpoint.t :=
  StoredEndpoint.mk (StoredEndpoint.ID s) (StoredEndpoint.Name s)
    (StoredEndpoint.URL s) (StoredEndpoint.Method s) (StoredEndpoint.Timeout s)
    (StoredEndpoint.CheckInterval s) (StoredEndpoint.ExpectedStatus s)
    (StoredEndpoint.Headers s) (StoredEndpoint.FailureThreshold s)
    (StoredEndpoint.SuccessThreshold s) v (StoredEndpoint.AlertsSuppressed s)
    (StoredEndpoint.CreatedAt s) (StoredEndpoint.UpdatedAt s).

Definition stored_set_AlertsSuppressed (v : bool) (s : StoredEndpoint.t)
  : StoredEndpoint.t :=
  StoredEndpoint.mk (StoredEndpoint.ID s) (StoredEndpoint.Name s)
    (StoredEndpoint.URL s) (StoredEndpoint.Method s) (StoredEndpoint.Timeout s)
    (StoredEndpoint.CheckInterval s) (StoredEndpoint.ExpectedStatus s)
    (StoredEndpoint.Headers s) (StoredEndpoint.FailureThreshold s)
    (StoredEndpoint.SuccessThreshold s) (StoredEndpoint.Enabled s) v
    (StoredEndpoint.CreatedAt s) (StoredEndpoint.UpdatedAt s).

Definition stored_set_CheckInterval (v : Duration) (s : StoredEndpoint.t)
  : StoredEndpoint.t :=
  StoredEndpoint.mk (StoredEndpoint.ID s) (StoredEndpoint.Name s)
    (StoredEndpoint.URL s) (StoredEndpoint.Method s) (StoredEndpoint.Timeout s)
    v (StoredEndpoint.ExpectedStatus s)
    (StoredEndpoint.Headers s) (StoredEndpoint.FailureThreshold s)
    (StoredEndpoint.SuccessThreshold s) (StoredEndpoint.Enabled s)
    (StoredEndpoint.AlertsSuppressed s)
    (StoredEndpoint.CreatedAt s) (StoredEndpoint.UpdatedAt s).

Definition stored_set_Timeout (v : Duration) (s : StoredEndpoint.t)
  : StoredEndpoint.t :=
  StoredEndpoint.mk (StoredEndpoint.ID s) (StoredEndpoint.Name s)
    (StoredEndpoint.URL s) (StoredEndpoint.Method s) v
    (StoredEndpoint.CheckInterval s) (StoredEndpoint.ExpectedStatus s)
    (StoredEndpoint.Headers s) (StoredEndpoint.FailureThreshold s)
    (StoredEndpoint.SuccessThreshold s) (StoredEndpoint.Enabled s)
    (StoredEndpoint.AlertsSuppressed s)
    (StoredEndpoint.CreatedAt s) (StoredEndpoint.UpdatedAt s).

Definition stored_set_FailureThreshold (v : Z) (s : StoredEndpoint.t)
  : StoredEndpoint.t :=
  StoredEndpoint.mk (StoredEndpoint.ID s) (StoredEndpoint.Name s)
    (StoredEndpoint.URL s) (StoredEndpoint.Method s) (StoredEndpoint.Timeout s)
    (StoredEndpoint.CheckInterval s) (StoredEndpoint.ExpectedStatus s)
    (StoredEndpoint.Headers s) v
    (StoredEndpoint.SuccessThreshold s) (StoredEndpoint.Enabled s)
    (StoredEndpoint.AlertsSuppressed s)
    (StoredEndpoint.CreatedAt s) (StoredEndpoint.UpdatedAt s).

Definition stored_set_SuccessThreshold (v : Z) (s : StoredEndpoint.t)
  : StoredEndpoint.t :=
  StoredEndpoint.mk (StoredEndpoint.ID s) (StoredEndpoint.Name s)
    (StoredEndpoint.URL s) (StoredEndpoint.Method s) (StoredEndpoint.Timeout s)
    (StoredEndpoint.CheckInterval s) (StoredEndpoint.ExpectedStatus s)
    (StoredEndpoint.Headers s) (StoredEndpoint.FailureThreshold s)
    v (StoredEndpoint.Enabled s)
    (StoredEndpoint.AlertsSuppressed s)
    (StoredEndpoint.CreatedAt s) (StoredEndpoint.UpdatedAt s).

(** [GetEnabledEndpoints] *)
Definition GetEnabledEndpoints (d : Database)
  : list StoredEndpoint.t * option error :=
  match GetAllEndpoints d with
  | (_, Some err) => ([], Some err)
  | (all, None) =>
      (filter (fun ep => StoredEndpoint.Enabled ep = true) all, None)
  end.

(** The read-modify-write operations of the database.  [SaveEndpoint]
    reads the clock, so that the clock is read only when the endpoint is
    found: the last component is the number of readings taken so far. *)
Module Database.

(** [EnableEndpoint] *)
Definition EnableEndpoint (clock : nat -> Time) (reads : nat) (id : string)
  (d : Database) : option error * Database * nat :=
  match GetEndpoint id d with
  | inl err => (Some err, d, reads)
  | inr endpoint =>
      let endpoint := stored_set_Enabled true endpoint in
      match (SaveEndpoint (clock reads) endpoint d).2 with
      | inl err => (Some err, d, S reads)
      | inr d' => (None, d', S reads)
      end
  end.

(** [DisableEndpoint] *)
Definition DisableEndpoint (clock : nat -> Time) (reads : nat) (id : string)
  (d : Database) : option error * Database * nat :=
  match GetEndpoint id d with
  | inl err => (Some err, d, reads)
  | inr endpoint =>
      let endpoint := stored_set_Enabled false endpoint in
      match (SaveEndpoint (clock reads) endpoint d).2 with
      | inl err => (Some err, d, S reads)
      | inr d' => (None, d', S reads)
      end
  end.

(** [SuppressAlerts] *)
Definition SuppressAlerts (clock : nat -> Time) (reads : nat) (id : string)
  (d : Database) : option error * Database * nat :=
  match GetEndpoint id d with
  | inl err => (Some err, d, reads)
  | inr endpoint =>
      let endpoint := stored_set_AlertsSuppressed true endpoint in
      match (SaveEndpoint (clock reads) endpoint d).2 with
      | inl err => (Some err, d, S reads)
      | inr d' => (None, d', S reads)
      end
  end.

(** [UnsuppressAlerts] *)
Definition UnsuppressAlerts (clock : nat -> Time) (reads : nat) (id : string)
  (d : Database) : option error * Database * nat :=
  match GetEndpoint id d with
  | inl err => (Some err, d, reads)
  | inr endpoint =>
      let endpoint := stored_set_AlertsSuppressed false endpoint in
      match (SaveEndpoint (clock reads) endpoint d).2 with
      | inl err => (Some err, d, S reads)
      | inr d' => (None, d', S reads)
      end
  end.

End Database.

(** [MigrateFromConfig]: the loop over the endpoints of the configuration
    file.  An endpoint whose ID is stored already is skipped; the first
    endpoint that cannot be saved ends the migration with its error. *)
Fixpoint MigrateFromConfig (clock : nat -> Time) (reads : nat)
  (endpoints : list Endpoint.t) (d : Database)
  : option error * Database * nat :=
  match endpoints with
  | [] => (None, d, reads)
  | ep :: rest =>
      let stored :=
        StoredEndpoint.mk
          (generateIDWithURL (Endpoint.Name ep) (Endpoint.URL ep))
          (Endpoint.Name ep)
          (Endpoint.URL ep)
          (Endpoint.Method ep)
          (Endpoint.Timeout ep)
          0
          (Endpoint.ExpectedStatus ep)
          (Endpoint.Headers ep)
          (Endpoint.FailureThreshold ep)
          (Endpoint.SuccessThreshold ep)
          true
          false
          time_Zero
          time_Zero in
      match GetEndpoint (StoredEndpoint.ID stored) d with
      | inr existing => MigrateFromConfig clock reads rest d
      | inl _ =>
          match (SaveEndpoint (clock reads) stored d).2 with
          | inl err =>
              (Some ("failed to migrate endpoint " ++ Endpoint.Name ep
                     ++ ": " ++ err), d, S reads)
          | inr d' => MigrateFromConfig clock (S reads) rest d'
          end
      end
  end.

(** ** monitor.go: the other operations of the registry *)

(** Field assignments on a runtime state. *)
Definition state_set_Enabled (v : bool) (s : EndpointState.t)
  : EndpointState.t :=
  EndpointState.mk (EndpointState.Endpoint s) (EndpointState.Status s)
    (EndpointState.LastCheck s) (EndpointState.LastStatusChange s)
    (EndpointState.ConsecutiveFailures s)
    (EndpointState.ConsecutiveSuccesses s) (EndpointState.ResponseTime s)
    (EndpointState.LastError s) v (EndpointState.AlertsSuppressed s)
    (EndpointState.ID s) (EndpointState.CheckInterval s)
    (EndpointState.NextCheck s).

Definition state_set_AlertsSuppressed (v : bool) (s : EndpointState.t)
  : EndpointState.t :=
  EndpointState.mk (EndpointState.Endpoint s) (EndpointState.Status s)
    (EndpointState.LastCheck s) (EndpointState.LastStatusChange s)
    (EndpointState.ConsecutiveFailures s)
    (EndpointState.ConsecutiveSuccesses s) (EndpointState.ResponseTime s)
    (EndpointState.LastError s) (EndpointState.Enabled s) v
    (EndpointState.ID s) (EndpointState.CheckInterval s)
    (EndpointState.NextCheck s).

Definition state_set_CheckInterval (v : Duration) (s : EndpointState.t)
  : EndpointState.t :=
  EndpointState.mk (EndpointState.Endpoint s) (EndpointState.Status s)
    (EndpointState.LastCheck s) (EndpointState.LastStatusChange s)
    (EndpointState.ConsecutiveFailures s)
    (EndpointState.ConsecutiveSuccesses s) (EndpointState.ResponseTime s)
    (EndpointState.LastError s) (EndpointState.Enabled s)
    (EndpointState.AlertsSuppressed s)
    (EndpointState.ID s) v (EndpointState.NextCheck s).

Definition state_set_Endpoint (v : Endpoint.t) (s : EndpointState.t)
  : EndpointState.t :=
  EndpointState.mk v (EndpointState.Status s)
    (EndpointState.LastCheck s) (EndpointState.LastStatusChange s)
    (EndpointState.ConsecutiveFailures s)
    (EndpointState.ConsecutiveSuccesses s) (EndpointState.ResponseTime s)
    (EndpointState.LastError s) (EndpointState.Enabled s)
    (EndpointState.AlertsSuppressed s)
    (EndpointState.ID s) (EndpointState.CheckInterval s)
    (EndpointState.NextCheck s).

(** The loop of [loadEndpointsFromDB] over the stored endpoints. *)
Fixpoint load_states (endpoints : list StoredEndpoint.t) : M unit :=
  match endpoints with
  | [] => mret tt
  | stored :: rest =>
      fun m =>
        let checkInterval :=
          if StoredEndpoint.CheckInterval stored =? 0
          then config_CheckInterval m
          else StoredEndpoint.CheckInterval stored in
        let (lastCheck, m) := time_Now m in
        let (nextCheck, m) := time_Now m in
        let m :=
          set_states
            (<[StoredEndpoint.ID stored :=
                 fresh_state stored checkInterval lastCheck nextCheck]>
               (states m)) m in
        load_states rest m
  end.

(** [loadEndpointsFromDB].  [None] stands for the panic of a monitor whose
    [db] is nil; an error of [GetAllEndpoints] is logged and nothing is
    loaded. *)
Definition loadEndpointsFromDB : M (option unit) :=
  fun m =>
    match db m with
    | None => (None, m)
    | Some d =>
        match GetAllEndpoints d with
        | (_, Some err) => (Some tt, m)
        | (endpoints, None) =>
            let (_, m) := load_states endpoints m in (Some tt, m)
        end
    end.

(** [ReloadEndpoints] *)
Definition ReloadEndpoints : M (option unit) := loadEndpointsFromDB.

(** [GetStatus]: a new map with the same entries. *)
Definition GetStatus (m : Monitor) : gmap string EndpointState.t := states m.

Module Monitor.

(** [EnableEndpoint].  [None] stands for the panic of a monitor whose [db]
    is nil. *)
Definition EnableEndpoint (id : string) : M (option (option error)) :=
  fun m =>
    match db m with
    | None => (None, m)
    | Some d =>
        match Database.EnableEndpoint (clock m) (clock_reads m) id d with
        | (Some err, _, reads) => (Some (Some err), set_clock_reads reads m)
        | (None, d', reads) =>
            let m := set_db (Some d') (set_clock_reads reads m) in
            let m :=
              match states m !! id with
              | Some state =>
                  set_states
                    (<[id := state_set_Enabled true state]> (states m)) m
              | None => m
              end in
            (Some None, m)
        end
    end.

(** [DisableEndpoint] *)
Definition DisableEndpoint (id : string) : M (option (option error)) :=
  fun m =>
    match db m with
    | None => (None, m)
    | Some d =>
        match Database.DisableEndpoint (clock m) (clock_reads m) id d with
        | (Some err, _, reads) => (Some (Some err), set_clock_reads reads m)
        | (None, d', reads) =>
            let m := set_db (Some d') (set_clock_reads reads m) in
            let m :=
              match states m !! id with
              | Some state =>
                  set_states
                    (<[id := state_set_Enabled false state]> (states m)) m
              | None => m
              end in
            (Some None, m)
        end
    end.

(** [SuppressAlerts] *)
Definition SuppressAlerts (id : string) : M (option (option error)) :=
  fun m =>
    match db m with
    | None => (None, m)
    | Some d =>
        match Database.SuppressAlerts (clock m) (clock_reads m) id d with
        | (Some err, _, reads) => (Some (Some err), set_clock_reads reads m)
        | (None, d', reads) =>
            let m := set_db (Some d') (set_clock_reads reads m) in
            let m :=
              match states m !! id with
              | Some state =>
                  set_states
                    (<[id := state_set_AlertsSuppressed true state]>
                       (states m)) m
              | None => m
              end in
            (Some None, m)
        end
    end.

(** [UnsuppressAlerts] *)
Definition UnsuppressAlerts (id : string) : M (option (option error)) :=
  fun m =>
    match db m with
    | None => (None, m)
    | Some d =>
        match Database.UnsuppressAlerts (clock m) (clock_reads m) id d with
        | (Some err, _, reads) => (Some (Some err), set_clock_reads reads m)
        | (None, d', reads) =>
            let m := set_db (Some d') (set_clock_reads reads m) in
            let m :=
              match states m !! id with
              | Some state =>
                  set_states
                    (<[id := state_set_AlertsSuppressed false state]>
                       (states m)) m
              | None => m
              end in
            (Some None, m)
        end
    end.

(** [UpdateEndpointSettings] *)
Definition UpdateEndpointSettings (id : string) (stored : StoredEndpoint.t)
  : M unit :=
  fun m =>
    match states m !! id with
    | Some state =>
        let ep := EndpointState.Endpoint state in
        let ep :=
          Endpoint.mk (Endpoint.Name ep) (Endpoint.URL ep) (Endpoint.Method ep)
            (StoredEndpoint.Timeout stored)
            (Endpoint.ExpectedStatus ep) (Endpoint.Headers ep)
            (StoredEndpoint.FailureThreshold stored)
            (StoredEndpoint.SuccessThreshold stored) in
        let state := state_set_Endpoint ep state in
        let state :=
          state_set_CheckInterval (StoredEndpoint.CheckInterval stored)
                                  state in
        (tt, set_states (<[id := state]> (states m)) m)
    | None => (tt, m)
    end.

End Monitor.

(** ** server.go: the other handlers of the API *)

Definition StatusNotFound : Z := 404.
Definition StatusServiceUnavailable : Z := 503.

(** A request that names an endpoint: its method, the [id] parameter of
    its query (empty when absent) and the [id] field of its body as
    [json.NewDecoder(r.Body).Decode(&req)] returns it. *)
Record ActionRequest : Type := mkActionRequest {
  action_Method : string;
  action_query_id : string;
  action_Body : error + string
}.

(** What these handlers write: [http.Error(w, message, code)], the JSON
    document of a success with its message, the document of an updated
    endpoint, or the document of the overall health with its status code. *)
Inductive Reply : Type :=
  | reply_Error (message : string) (code : Z)
  | reply_Success (message : string)
  | reply_Updated (endpoint : StoredEndpoint.t)
  | reply_Health (status : string) (timestamp : Time) (code : Z).

Definition reply_code (r : Reply) : Z :=
  match r with
  | reply_Error _ code => code
  | reply_Success _ => StatusOK
  | reply_Updated _ => StatusOK
  | reply_Health _ _ code => code
  end.

(** The ID a handler works with: the query parameter or, when that is
    empty and the body decodes, the field of the body. *)
Definition request_id (r : ActionRequest) : string :=
  let id := action_query_id r in
  if bool_decide (id = "") then
    match action_Body r with
    | inr body_id => body_id
    | inl _ => id
    end
  else id.

(** [handleDeleteEndpoint].  [None] stands for the panic of a monitor
    whose [db] is nil. *)
Definition handleDeleteEndpoint (r : ActionRequest) : M (option Reply) :=
  fun m =>
    if negb (bool_decide (action_Method r = "POST"))
       && negb (bool_decide (action_Method r = "DELETE")) then
      (Some (reply_Error "Method not allowed" StatusMethodNotAllowed), m)
    else
    let id := request_id r in
    if bool_decide (id = "") then
      (Some (reply_Error "Endpoint ID is required" StatusBadRequest), m)
    else
    match RemoveEndpoint id m with
    | (None, m) => (None, m)
    | (Some (Some err), m) =>
        (Some (reply_Error err StatusInternalServerError), m)
    | (Some None, m) => (Some (reply_Success "Endpoint deleted"), m)
    end.

(** [handleEndpointAction] *)
Definition handleEndpointAction (r : ActionRequest)
  (action : string -> M (option (option error))) (actionName : string)
  : M (option Reply) :=
  fun m =>
    if negb (bool_decide (action_Method r = "POST")) then
      (Some (reply_Error "Method not allowed" StatusMethodNotAllowed), m)
    else
    let id := request_id r in
    if bool_decide (id = "") then
      (Some (reply_Error "Endpoint ID is required" StatusBadRequest), m)
    else
    match action id m with
    | (None, m) => (None, m)
    | (Some (Some err), m) =>
        (Some (reply_Error err StatusInternalServerError), m)
    | (Some None, m) => (Some (reply_Success ("Endpoint " ++ actionName)), m)
    end.

(** [handleEnableEndpoint], [handleDisableEndpoint],
    [handleSuppressAlerts], [handleUnsuppressAlerts] *)
Definition handleEnableEndpoint (r : ActionRequest) : M (option Reply) :=
  handleEndpointAction r Monitor.EnableEndpoint "enabled".

Definition handleDisableEndpoint (r : ActionRequest) : M (option Reply) :=
  handleEndpointAction r Monitor.DisableEndpoint "disabled".

Definition handleSuppressAlerts (r : ActionRequest) : M (option Reply) :=
  handleEndpointAction r Monitor.SuppressAlerts "alerts suppressed".

Definition handleUnsuppressAlerts (r : ActionRequest) : M (option Reply) :=
  handleEndpointAction r Monitor.UnsuppressAlerts "alerts enabled".

(** [handleHealth]: the loop over the runtime states, then the answer. *)
Definition handleHealth : M Reply :=
  fun m =>
    let allHealthy :=
      foldl (fun allHealthy kv =>
               if HealthStatus_eqb (EndpointState.Status kv.2) StatusUnhealthy
               then false else allHealthy)
            true (map_to_list (GetStatus m)) in
    let (now, m) := time_Now m in
    if negb allHealthy
    then (reply_Health "unhealthy" now StatusServiceUnavailable, m)
    else (reply_Health "healthy" now StatusOK, m).

(** The body of a request to update an endpoint. *)
Module UpdateRequest.
Record t : Type := mk {
  ID : string;
  CheckInterval : string;
  Timeout : string;
  FailureThreshold : Z;
  SuccessThreshold : Z
}.
End UpdateRequest.

Section Update.

Variable time_ParseDuration : string -> error + Duration.

(** [handleUpdateEndpoint], for a request with the given method and
    decoded body. *)
Definition handleUpdateEndpoint (method : string)
  (body : error + UpdateRequest.t) : M (option Reply) :=
  fun m =>
    if negb (bool_decide (method = "POST")) then
      (Some (reply_Error "Method not allowed" StatusMethodNotAllowed), m)
    else
    match body with
    | inl err =>
        (Some (reply_Error ("Invalid request body: " ++ err) StatusBadRequest),
         m)
    | inr req =>
    if bool_decide (UpdateRequest.ID req = "") then
      (Some (reply_Error "Endpoint ID is required" StatusBadRequest), m)
    else
    match db m with
    | None => (None, m)
    | Some d =>
    match GetEndpoint (UpdateRequest.ID req) d with
    | inl err =>
        (Some (reply_Error ("Endpoint not found: " ++ err) StatusNotFound), m)
    | inr endpoint =>
    match
      (if bool_decide (UpdateRequest.CheckInterval req = "")
       then inr endpoint
       else match time_ParseDuration (UpdateRequest.CheckInterval req) with
            | inl err => inl ("Invalid check_interval format: " ++ err)
            | inr interval => inr (stored_set_CheckInterval interval endpoint)
            end)
    with
    | inl message => (Some (reply_Error message StatusBadRequest), m)
    | inr endpoint =>
    match
      (if bool_decide (UpdateRequest.Timeout req = "")
       then inr endpoint
       else match time_ParseDuration (UpdateRequest.Timeout req) with
            | inl err => inl ("Invalid timeout format: " ++ err)
            | inr timeout => inr (stored_set_Timeout timeout endpoint)
            end)
    with
    | inl message => (Some (reply_Error message StatusBadRequest), m)
    | inr endpoint =>
    let endpoint :=
      if 0 <? UpdateRequest.FailureThreshold req
      then stored_set_FailureThreshold (UpdateRequest.FailureThreshold req)
                                       endpoint
      else endpoint in
    let endpoint :=
      if 0 <? UpdateRequest.SuccessThreshold req
      then stored_set_SuccessThreshold (UpdateRequest.SuccessThreshold req)
                                       endpoint
      else endpoint in
    let (now, m) := time_Now m in
    match SaveEndpoint now endpoint d with
    | (_, inl err) => (Some (reply_Error err StatusInternalServerError), m)
    | (endpoint, inr d') =>
        let m := set_db (Some d') m in
        let (_, m) := Monitor.UpdateEndpointSettings (UpdateRequest.ID req)
                                                     endpoint m in
        (Some (reply_Updated endpoint), m)
    end
    end end end end end.

End Update.

(** ** More concrete states *)

(** The runtime state of the demo endpoint with alerts suppressed. *)
Definition suppressed_state : EndpointState.t :=
  state_set_AlertsSuppressed true demo_state.

(** A store that holds the demo endpoint with three records of its
    history, and a monitor over it that runs the endpoint. *)
Definition api_store : Database :=
  mkDatabase {[ "API-https-x" := Doc stored_api ]} (history three_records).

Definition api_monitor : Monitor :=
  mkMonitor (30 * Second) {[ "API-https-x" := demo_state ]} []
            (Some api_store) demo_clock 0.

(** ** Stores as the program writes them *)

(** Every stored endpoint is a document kept under its own ID, and the
    key is one bbolt accepts: [SaveEndpoint] writes no other entry. *)
Definition store_wf (b : Bucket (Encoded StoredEndpoint.t)) : Prop :=
  forall k v,
    b !! k = Some v ->
    exists endpoint,
      v = Doc endpoint
      /\ StoredEndpoint.ID endpoint = k
      /\ k <> ""
      /\ Z.of_nat (String.length k) <= MaxKeySize.

(** The monitor holds a state for [id] that is as new: status unknown,
    both counters at zero, no status change recorded. *)
Definition fresh_at (id : string) (m : Monitor) : Prop :=
  exists state,
    states m !! id = Some state
    /\ EndpointState.ID state = id
    /\ EndpointState.Status state = StatusUnknown
    /\ EndpointState.ConsecutiveFailures state = 0
    /\ EndpointState.ConsecutiveSuccesses state = 0
    /\ EndpointState.LastStatusChange state = time_Zero.

(** A monitor over the same store that has found the endpoint
    unhealthy. *)
Definition failing_monitor : Monitor :=
  mkMonitor (30 * Second)
    {[ "API-https-x"
       := EndpointState.set_Status StatusUnhealthy
            (EndpointState.set_ConsecutiveFailures 3 demo_state) ]}
    [] (Some api_store) demo_clock 6.

(** Every entry of the history is the document of a record, stored under
    the key of that record, and endpoint IDs have no colon. *)
Definition history_keyed (b : Bucket (Encoded HealthCheckRecord.t)) : Prop :=
  forall k v,
    b !! k = Some v ->
    exists record,
      v = Doc record
      /\ k = key_of record
      /\ (":"%char ∉ chars (HealthCheckRecord.EndpointID record)).

(** * Properties *)

(** ** The two handlers, step by step *)

Lemma handleCheckSuccess_spec state rt m :
  let s' := (handleCheckSuccess state rt m).1 in
  let m' := (handleCheckSuccess state rt m).2 in
  EndpointState.Endpoint s' = EndpointState.Endpoint state
  ∧ EndpointState.ConsecutiveFailures s' = 0
  ∧ EndpointState.ConsecutiveSuccesses s'
    = int_add (EndpointState.ConsecutiveSuccesses state) 1
  ∧ EndpointState.Status s'
    = (if Endpoint.SuccessThreshold (EndpointState.Endpoint state)
          <=? int_add (EndpointState.ConsecutiveSuccesses state) 1
       then StatusHealthy else EndpointState.Status state)
  ∧ EndpointState.ResponseTime s' = rt
  ∧ EndpointState.LastError s' = ""
  ∧ alerter m'
    = (alerter m ++
       (if HealthStatus_eqb (EndpointState.Status state) StatusUnhealthy
           && HealthStatus_eqb (EndpointState.Status s') StatusHealthy
           && negb (EndpointState.AlertsSuppressed state)
        then [mkAlert RecoveryAlert (EndpointState.Endpoint state) s']
        else []))%list
  ∧ db m' = db_after_save (record_of s' "") (db m).
Proof.
  destruct state as [ep st lc lsc cf cs rtm le en sup id ci nc].
  destruct m as [cfg sts al [d|] clk n];
    unfold record_of, db_after_save; run_handler; cbn;
    destruct (Endpoint.SuccessThreshold ep <=? int_add cs 1);
    handler_cases st sup.
Qed.

Lemma handleCheckFailure_spec state err rt m :
  let s' := (handleCheckFailure state err rt m).1 in
  let m' := (handleCheckFailure state err rt m).2 in
  EndpointState.Endpoint s' = EndpointState.Endpoint state
  ∧ EndpointState.ConsecutiveSuccesses s' = 0
  ∧ EndpointState.ConsecutiveFailures s'
    = int_add (EndpointState.ConsecutiveFailures state) 1
  ∧ EndpointState.Status s'
    = (if Endpoint.FailureThreshold (EndpointState.Endpoint state)
          <=? int_add (EndpointState.ConsecutiveFailures state) 1
       then StatusUnhealthy else EndpointState.Status state)
  ∧ EndpointState.ResponseTime s' = rt
  ∧ EndpointState.LastError s' = err
  ∧ alerter m'
    = (alerter m ++
       (if negb (HealthStatus_eqb (EndpointState.Status state) StatusUnhealthy)
           && HealthStatus_eqb (EndpointState.Status s') StatusUnhealthy
           && negb (EndpointState.AlertsSuppressed state)
        then [mkAlert FailureAlert (EndpointState.Endpoint state) s']
        else []))%list
  ∧ db m' = db_after_save (record_of s' err) (db m).
Proof.
  destruct state as [ep st lc lsc cf cs rtm le en sup id ci nc].
  destruct m as [cfg sts al [d|] clk n];
    unfold record_of, db_after_save; run_handler; cbn;
    destruct (Endpoint.FailureThreshold ep <=? int_add cf 1);
    handler_cases st sup.
Qed.

Lemma int_add_exact (x : Z) :
  in_int64 x -> x < max_int64 -> int_add x 1 = x + 1.
Proof.
  unfold in_int64, int_add, wrap64, min_int64, max_int64. intros [Hlo _] Hhi.
  rewrite Z.mod_small; lia.
Qed.

Lemma HealthStatus_eqb_eq (a b : HealthStatus) :
  HealthStatus_eqb a b = true <-> a = b.
Proof. destruct a, b; cbn; split; congruence. Qed.

(** What one check does to the status, in one equation. *)
Lemma handle_Status s o m :
  let s' := (handle s o m).1 in
  EndpointState.Endpoint s' = EndpointState.Endpoint s
  /\ EndpointState.Status s'
     = match o with
       | Success _ =>
           if Endpoint.SuccessThreshold (EndpointState.Endpoint s')
              <=? EndpointState.ConsecutiveSuccesses s'
           then StatusHealthy else EndpointState.Status s
       | Failure _ _ =>
           if Endpoint.FailureThreshold (EndpointState.Endpoint s')
              <=? EndpointState.ConsecutiveFailures s'
           then StatusUnhealthy else EndpointState.Status s
       end.
Proof.
  destruct o as [rt | err rt]; cbn.
  - destruct (handleCheckSuccess_spec s rt m) as (He & _ & Hc & Hs & _).
    rewrite He, Hc. auto.
  - destruct (handleCheckFailure_spec s err rt m) as (He & _ & Hc & Hs & _).
    rewrite He, Hc. auto.
Qed.

(** The calls one check makes on the alerter. *)
Lemma handle_alerter s o m :
  let s' := (handle s o m).1 in
  let m' := (handle s o m).2 in
  exists sent : list Alert,
    alerter m' = (alerter m ++ sent)%list
    /\ (length sent <=
        if HealthStatus_eqb (EndpointState.Status s) (EndpointState.Status s')
        then 0 else 1)%nat
    /\ forall a, a ∈ sent ->
         (alert_kind a = RecoveryAlert
          /\ EndpointState.Status s' = StatusHealthy
          /\ EndpointState.Status s = StatusUnhealthy)
         \/ (alert_kind a = FailureAlert
             /\ EndpointState.Status s' = StatusUnhealthy
             /\ EndpointState.Status s <> StatusUnhealthy).
Proof.
  destruct o as [rt | err rt]; cbn.
  - destruct (handleCheckSuccess_spec s rt m) as (_ & _ & _ & _ & _ & _ & Ha & _).
    eexists. split; [exact Ha|].
    destruct (EndpointState.Status s), (EndpointState.Status _),
      (EndpointState.AlertsSuppressed s); cbn; split; try lia;
      intros a Hin; try (by apply elem_of_nil in Hin);
      apply list_elem_of_singleton in Hin; subst a; cbn; auto.
  - destruct (handleCheckFailure_spec s err rt m) as (_ & _ & _ & _ & _ & _ & Ha & _).
    eexists. split; [exact Ha|].
    destruct (EndpointState.Status s), (EndpointState.Status _),
      (EndpointState.AlertsSuppressed s); cbn; split; try lia;
      intros a Hin; try (by apply elem_of_nil in Hin);
      apply list_elem_of_singleton in Hin; subst a; cbn; right; auto.
Qed.

(** One check, in terms of the state before it: the endpoint keeps its
    configuration, the counter of the outcome is incremented and the other
    one zeroed, and the status is set when the incremented counter is at
    the threshold or above and kept otherwise. *)
Lemma handle_step s o m :
  let s' := (handle s o m).1 in
  EndpointState.Endpoint s' = EndpointState.Endpoint s
  /\ EndpointState.ConsecutiveFailures s'
     = consecutive_failures (EndpointState.ConsecutiveFailures s) [o]
  /\ EndpointState.ConsecutiveSuccesses s'
     = consecutive_successes (EndpointState.ConsecutiveSuccesses s) [o]
  /\ EndpointState.Status s'
     = match o with
       | Success _ =>
           if Endpoint.SuccessThreshold (EndpointState.Endpoint s)
              <=? int_add (EndpointState.ConsecutiveSuccesses s) 1
           then StatusHealthy else EndpointState.Status s
       | Failure _ _ =>
           if Endpoint.FailureThreshold (EndpointState.Endpoint s)
              <=? int_add (EndpointState.ConsecutiveFailures s) 1
           then StatusUnhealthy else EndpointState.Status s
       end.
Proof.
  destruct o as [rt | err rt]; cbn.
  - by destruct (handleCheckSuccess_spec s rt m) as (He & Hf & Hc & Hs & _).
  - by destruct (handleCheckFailure_spec s err rt m) as (He & Hc & Hf & Hs & _).
Qed.

Lemma run_cons state o rest m :
  run state (o :: rest) m
  = run (handle state o m).1 rest (handle state o m).2.
Proof.
  cbn. unfold mbind, M_bind. by destruct (handle state o m).
Qed.

(** A run keeps the configuration of the endpoint, and its counters are
    the ones the outcomes fix. *)
Lemma run_counters state outcomes m :
  let s := (run state outcomes m).1 in
  EndpointState.Endpoint s = EndpointState.Endpoint state
  /\ EndpointState.ConsecutiveFailures s
     = consecutive_failures (EndpointState.ConsecutiveFailures state) outcomes
  /\ EndpointState.ConsecutiveSuccesses s
     = consecutive_successes (EndpointState.ConsecutiveSuccesses state)
                             outcomes.
Proof.
  cbv zeta. revert state m.
  induction outcomes as [| o rest IH]; intros state m; [done |].
  rewrite run_cons.
  destruct (IH (handle state o m).1 (handle state o m).2) as (-> & -> & ->).
  destruct (handle_step state o m) as (-> & -> & -> & _). done.
Qed.

(** What the two counts are, where the increment does not wrap around: a
    streak of failures adds its length, and after a success the count is
    the number of failures that follow it. *)
Lemma consecutive_failures_streak (start : Z) (failures : list Outcome) :
  Forall is_Failure failures ->
  0 <= start -> start + Z.of_nat (length failures) <= max_int64 ->
  consecutive_failures start failures = start + Z.of_nat (length failures).
Proof.
  unfold consecutive_failures. intros Hall. revert start.
  induction Hall as [| o rest Ho _ IH]; intros start Hlo Hhi; cbn; [lia |].
  destruct o as [rt | err rt]; [done |]. cbn [length] in Hhi.
  rewrite IH; rewrite int_add_exact;
    unfold in_int64, min_int64, max_int64 in *; lia.
Qed.

Lemma consecutive_failures_trailing (start : Z) (before : list Outcome)
  (responseTime : Duration) (failures : list Outcome) :
  Forall is_Failure failures ->
  Z.of_nat (length failures) <= max_int64 ->
  consecutive_failures start (before ++ Success responseTime :: failures)
  = Z.of_nat (length failures).
Proof.
  intros Hall Hhi. unfold consecutive_failures. rewrite foldl_app. cbn [foldl].
  by apply (consecutive_failures_streak 0).
Qed.

Lemma consecutive_successes_streak (start : Z) (successes : list Outcome) :
  Forall is_Success successes ->
  0 <= start -> start + Z.of_nat (length successes) <= max_int64 ->
  consecutive_successes start successes
  = start + Z.of_nat (length successes).
Proof.
  unfold consecutive_successes. intros Hall. revert start.
  induction Hall as [| o rest Ho _ IH]; intros start Hlo Hhi; cbn; [lia |].
  destruct o as [rt | err rt]; [| done]. cbn [length] in Hhi.
  rewrite IH; rewrite int_add_exact;
    unfold in_int64, min_int64, max_int64 in *; lia.
Qed.

Lemma consecutive_successes_trailing (start : Z) (before : list Outcome)
  (errorMsg : string) (responseTime : Duration) (successes : list Outcome) :
  Forall is_Success successes ->
  Z.of_nat (length successes) <= max_int64 ->
  consecutive_successes start
    (before ++ Failure errorMsg responseTime :: successes)
  = Z.of_nat (length successes).
Proof.
  intros Hall Hhi. unfold consecutive_successes. rewrite foldl_app.
  cbn [foldl]. by apply (consecutive_successes_streak 0).
Qed.

(** C1.  Take an endpoint in any state, any sequence of check outcomes,
    and the check that follows them.  That check keeps the thresholds the
    endpoint started with and leaves the two counters at the counts of
    consecutive failures and successes that the outcomes fix.  It makes
    the status unhealthy exactly when it is a failure that brings the
    count of consecutive failures to the failure threshold, and healthy
    exactly when it is a success that brings the count of consecutive
    successes to the success threshold; a check that does not meet its
    threshold leaves the status as it was. *)
Theorem status_follows_thresholds
  (state : EndpointState.t) (outcomes : list Outcome) (o : Outcome)
  (m : Monitor) :
  let s := (run state outcomes m).1 in
  let m1 := (run state outcomes m).2 in
  let s' := (handle s o m1).1 in
  (EndpointState.Endpoint s' = EndpointState.Endpoint state
   /\ EndpointState.ConsecutiveFailures s'
      = consecutive_failures (EndpointState.ConsecutiveFailures state)
                             (outcomes ++ [o])
   /\ EndpointState.ConsecutiveSuccesses s'
      = consecutive_successes (EndpointState.ConsecutiveSuccesses state)
                              (outcomes ++ [o]))
  /\ (becomes StatusUnhealthy s s'
      <-> EndpointState.Status s <> StatusUnhealthy
          /\ failures_reach_threshold state outcomes o)
  /\ (becomes StatusHealthy s s'
      <-> EndpointState.Status s <> StatusHealthy
          /\ successes_reach_threshold state outcomes o)
  /\ (failures_reach_threshold state outcomes o
      -> EndpointState.Status s' = StatusUnhealthy)
  /\ (successes_reach_threshold state outcomes o
      -> EndpointState.Status s' = StatusHealthy)
  /\ (~ failures_reach_threshold state outcomes o
      -> ~ successes_reach_threshold state outcomes o
      -> EndpointState.Status s' = EndpointState.Status s).
Proof.
  destruct (run_counters state outcomes m) as (He & Hf & Hs).
  destruct (handle_step (run state outcomes m).1 o (run state outcomes m).2)
    as (He' & Hf' & Hs' & Hst).
  cbv zeta.
  unfold becomes, failures_reach_threshold, successes_reach_threshold,
    consecutive_failures, consecutive_successes in *.
  rewrite !foldl_app. cbn [foldl] in *. rewrite <- Hf, <- Hs, <- He.
  set (s := (run state outcomes m).1) in *.
  set (s' := (handle s o (run state outcomes m).2).1) in *.
  split; [done |]. clear Hf Hs He.
  destruct o as [rt | err rt]; cbn [is_Failure is_Success] in *.
  - destruct (Z.leb_spec
                (Endpoint.SuccessThreshold (EndpointState.Endpoint s))
                (int_add (EndpointState.ConsecutiveSuccesses s) 1))
      as [Hle | Hlt]; rewrite Hst; intuition (congruence || lia).
  - destruct (Z.leb_spec
                (Endpoint.FailureThreshold (EndpointState.Endpoint s))
                (int_add (EndpointState.ConsecutiveFailures s) 1))
      as [Hle | Hlt]; rewrite Hst; intuition (congruence || lia).
Qed.

(** C2.  One successful outcome sets the failure counter to 0 and adds 1
    to the success counter; one failed outcome sets the success counter to
    0 and adds 1 to the failure counter.  The addition is Go's, on [int]:
    it is the mathematical one for every counter below the largest int. *)
Theorem one_counter_increments
  (state : EndpointState.t) (errorMsg : string) (responseTime : Duration)
  (m : Monitor) :
  let s1 := (handleCheckSuccess state responseTime m).1 in
  let s2 := (handleCheckFailure state errorMsg responseTime m).1 in
  (EndpointState.ConsecutiveFailures s1 = 0
   /\ EndpointState.ConsecutiveSuccesses s1
      = int_add (EndpointState.ConsecutiveSuccesses state) 1
   /\ (in_int64 (EndpointState.ConsecutiveSuccesses state)
       -> EndpointState.ConsecutiveSuccesses state < max_int64
       -> EndpointState.ConsecutiveSuccesses s1
          = EndpointState.ConsecutiveSuccesses state + 1))
  /\ (EndpointState.ConsecutiveSuccesses s2 = 0
      /\ EndpointState.ConsecutiveFailures s2
         = int_add (EndpointState.ConsecutiveFailures state) 1
      /\ (in_int64 (EndpointState.ConsecutiveFailures state)
          -> EndpointState.ConsecutiveFailures state < max_int64
          -> EndpointState.ConsecutiveFailures s2
             = EndpointState.ConsecutiveFailures state + 1)).
Proof.
  intros s1 s2.
  destruct (handleCheckSuccess_spec state responseTime m)
    as (_ & Hf1 & Hs1 & _).
  destruct (handleCheckFailure_spec state errorMsg responseTime m)
    as (_ & Hs2 & Hf2 & _).
  fold s1 in Hf1, Hs1. fold s2 in Hf2, Hs2.
  repeat split; try assumption.
  - intros Hr Hlt. rewrite Hs1. by apply int_add_exact.
  - intros Hr Hlt. rewrite Hf2. by apply int_add_exact.
Qed.

Lemma run_alerter_length state outcomes m :
  (length (alerter (run state outcomes m).2)
   <= length (alerter m) + status_changes state outcomes m)%nat.
Proof.
  revert state m. induction outcomes as [| o rest IH]; intros state m.
  - cbn. lia.
  - rewrite run_cons. cbn [status_changes].
    destruct (handle_alerter state o m) as (sent & Ha & Hlen & _).
    destruct (handle state o m) as [s' m'] eqn:Hh. cbn [fst snd] in *.
    specialize (IH s' m'). rewrite Ha, length_app in IH. lia.
Qed.

(** C3.  After any sequence of check outcomes, the next check calls the
    alerter at most once, and only when it changes the status: a recovery
    alert when the status goes from unhealthy to healthy, a failure alert
    when it goes from a status other than unhealthy to unhealthy.  A check
    that leaves the status unchanged sends nothing, and a whole run sends
    no more alerts than it has status changes. *)
Theorem alerts_only_on_transitions
  (state : EndpointState.t) (outcomes : list Outcome) (o : Outcome)
  (m : Monitor) :
  let s := (run state outcomes m).1 in
  let m1 := (run state outcomes m).2 in
  let s' := (handle s o m1).1 in
  let m2 := (handle s o m1).2 in
  (exists sent : list Alert,
      alerter m2 = (alerter m1 ++ sent)%list
      /\ (length sent <= 1)%nat
      /\ (EndpointState.Status s = EndpointState.Status s' -> sent = [])
      /\ forall a, a ∈ sent ->
           EndpointState.Status s <> EndpointState.Status s'
           /\ ((alert_kind a = RecoveryAlert
                /\ EndpointState.Status s' = StatusHealthy
                /\ EndpointState.Status s = StatusUnhealthy)
               \/ (alert_kind a = FailureAlert
                   /\ EndpointState.Status s' = StatusUnhealthy
                   /\ EndpointState.Status s <> StatusUnhealthy)))
  /\ (length (alerter m1)
      <= length (alerter m) + status_changes state outcomes m)%nat.
Proof.
  intros s m1 s' m2. split; [| apply run_alerter_length].
  destruct (handle_alerter s o m1) as (sent & Ha & Hlen & Hk).
  fold s' in Hlen, Hk. fold m2 in Ha.
  exists sent. split; [exact Ha|]. split; [| split].
  - destruct (HealthStatus_eqb _ _); lia.
  - intros Heq. apply HealthStatus_eqb_eq in Heq. rewrite Heq in Hlen.
    destruct sent; [done | cbn in Hlen; lia].
  - intros a Hin. specialize (Hk a Hin). split; [| exact Hk].
    destruct Hk as [(_ & H1 & H2) | (_ & H1 & H2)]; congruence.
Qed.

(** *** A worked run *)

(** Failure threshold 3, success threshold 2: three failures make the
    endpoint unhealthy with one failure alert; a success resets the failure
    counter without changing the status; a second success makes the
    endpoint healthy with one recovery alert. *)
Example hysteresis_scenario :
  let r3 := run demo_state [demo_failure; demo_failure; demo_failure]
                demo_monitor in
  let r4 := handle r3.1 demo_success r3.2 in
  let r5 := handle r4.1 demo_success r4.2 in
  (EndpointState.Status r3.1 = StatusUnhealthy
   /\ map alert_kind (alerter r3.2) = [FailureAlert])
  /\ (EndpointState.Status r4.1 = StatusUnhealthy
      /\ EndpointState.ConsecutiveFailures r4.1 = 0
      /\ map alert_kind (alerter r4.2) = [FailureAlert])
  /\ (EndpointState.Status r5.1 = StatusHealthy
      /\ map alert_kind (alerter r5.2) = [FailureAlert; RecoveryAlert]).
Proof. vm_compute. repeat split. Qed.

(** ** One check *)

Lemma bind_eq {A B : Type} (c : M A) (f : A -> M B) (m : Monitor) :
  (c ≫= f) m = f (c m).1 (c m).2.
Proof. unfold mbind, M_bind. by destruct (c m). Qed.

Lemma time_Now_eq (m : Monitor) :
  time_Now m = (clock m (clock_reads m), tick 1 m).
Proof. reflexivity. Qed.

Lemma time_Since_eq (start : Time) (m : Monitor) :
  time_Since start m = (time_Sub (clock m (clock_reads m)) start, tick 1 m).
Proof. reflexivity. Qed.

Lemma tick_tick (j k : nat) (m : Monitor) :
  tick j (tick k m) = tick (j + k) m.
Proof.
  unfold tick, set_clock_reads. cbn. f_equal. lia.
Qed.

(** [checkEndpoint] hands the check to one of the two handlers. *)
Lemma checkEndpoint_eq state net m :
  checkEndpoint state net m
  = match NewRequestWithContext net with
    | Some err =>
        handleCheckFailure state ("failed to create request: " ++ err) 0
          (tick 1 m)
    | None =>
        let responseTime :=
          time_Sub (clock m (S (clock_reads m))) (clock m (clock_reads m)) in
        match Do net with
        | inl err =>
            handleCheckFailure state ("request failed: " ++ err) responseTime
              (tick 2 m)
        | inr StatusCode =>
            if negb (StatusCode
                     =? Endpoint.ExpectedStatus (EndpointState.Endpoint state))
            then
              handleCheckFailure state
                ("unexpected status code: got " ++ fmt_d StatusCode
                 ++ ", expected "
                 ++ fmt_d (Endpoint.ExpectedStatus
                             (EndpointState.Endpoint state)))
                responseTime (tick 2 m)
            else handleCheckSuccess state responseTime (tick 2 m)
        end
    end.
Proof.
  unfold checkEndpoint. rewrite bind_eq, time_Now_eq. cbn [fst snd].
  destruct (NewRequestWithContext net) as [err |]; [reflexivity |].
  rewrite bind_eq, time_Since_eq. cbn [fst snd].
  rewrite (tick_tick 1 1 m). change (1 + 1)%nat with 2%nat.
  change (clock (tick 1 m) (clock_reads (tick 1 m)))
    with (clock m (S (clock_reads m))).
  destruct (Do net) as [err | code]; [reflexivity |].
  destruct (negb _); reflexivity.
Qed.

(** C7.  One check is classified in exactly one of four ways: a request
    that cannot be built is a failure "failed to create request: ..." with
    response time 0; a transport failure or timeout is a failure
    "request failed: ..." with the elapsed time; a response with another
    status code than the expected one is a failure
    "unexpected status code: got X, expected Y" with the elapsed time; a
    response with the expected code is a success with the elapsed time. *)
Theorem checkEndpoint_classification
  (state : EndpointState.t) (net : Network) (m : Monitor) :
  let start := clock m (clock_reads m) in
  let elapsed := time_Sub (clock m (S (clock_reads m))) start in
  let expected := Endpoint.ExpectedStatus (EndpointState.Endpoint state) in
  let s' := (checkEndpoint state net m).1 in
  match NewRequestWithContext net, Do net with
  | Some err, _ =>
      checkEndpoint state net m
      = handle state (Failure ("failed to create request: " ++ err) 0)
               (tick 1 m)
      /\ EndpointState.LastError s' = "failed to create request: " ++ err
      /\ EndpointState.ResponseTime s' = 0
      /\ EndpointState.ConsecutiveSuccesses s' = 0
  | None, inl err =>
      checkEndpoint state net m
      = handle state (Failure ("request failed: " ++ err) elapsed) (tick 2 m)
      /\ EndpointState.LastError s' = "request failed: " ++ err
      /\ EndpointState.ResponseTime s' = elapsed
      /\ EndpointState.ConsecutiveSuccesses s' = 0
  | None, inr StatusCode =>
      if decide (StatusCode = expected) then
        checkEndpoint state net m = handle state (Success elapsed) (tick 2 m)
        /\ EndpointState.LastError s' = ""
        /\ EndpointState.ResponseTime s' = elapsed
        /\ EndpointState.ConsecutiveFailures s' = 0
      else
        checkEndpoint state net m
        = handle state
            (Failure ("unexpected status code: got " ++ fmt_d StatusCode
                      ++ ", expected " ++ fmt_d expected) elapsed)
            (tick 2 m)
        /\ EndpointState.LastError s'
           = "unexpected status code: got " ++ fmt_d StatusCode
             ++ ", expected " ++ fmt_d expected
        /\ EndpointState.ResponseTime s' = elapsed
        /\ EndpointState.ConsecutiveSuccesses s' = 0
  end.
Proof.
  intros start elapsed expected s'. subst s'.
  rewrite checkEndpoint_eq. unfold handle.
  destruct net as [[err |] [err' | code]]; cbn [NewRequestWithContext Do].
  - split; [reflexivity|].
    destruct (handleCheckFailure_spec state
                ("failed to create request: " ++ err) 0 (tick 1 m))
      as (_ & Hs & _ & _ & Hr & He & _). repeat split; assumption.
  - split; [reflexivity|].
    destruct (handleCheckFailure_spec state
                ("failed to create request: " ++ err) 0 (tick 1 m))
      as (_ & Hs & _ & _ & Hr & He & _). repeat split; assumption.
  - split; [reflexivity|].
    destruct (handleCheckFailure_spec state
                ("request failed: " ++ err') elapsed (tick 2 m))
      as (_ & Hs & _ & _ & Hr & He & _). repeat split; assumption.
  - fold expected. cbv zeta. fold start. fold elapsed.
    destruct (decide (code = expected)) as [Heq | Hne].
    + rewrite (proj2 (Z.eqb_eq code expected) Heq). cbn [negb].
      split; [reflexivity|].
      destruct (handleCheckSuccess_spec state elapsed (tick 2 m))
        as (_ & Hf & _ & _ & Hr & He & _). repeat split; assumption.
    + rewrite (proj2 (Z.eqb_neq code expected) Hne). cbn [negb].
      split; [reflexivity|].
      destruct (handleCheckFailure_spec state
                  ("unexpected status code: got " ++ fmt_d code
                   ++ ", expected " ++ fmt_d expected) elapsed (tick 2 m))
        as (_ & Hs & _ & _ & Hr & He & _). repeat split; assumption.
Qed.

(** ** What the monitor persists *)

Lemma SaveHealthCheckRecord_history record d d' :
  SaveHealthCheckRecord record d = inr d' ->
  exists key, history d' = <[key := Doc record]> (history d).
Proof.
  unfold SaveHealthCheckRecord, bucket_Put, json_Marshal.
  repeat case_match; intros Heq; simplify_eq; cbn; eauto.
Qed.

Lemma checkEndpoint_db state net m :
  exists errorMsg,
    db (checkEndpoint state net m).2
    = db_after_save (record_of (checkEndpoint state net m).1 errorMsg) (db m).
Proof.
  rewrite checkEndpoint_eq.
  destruct (NewRequestWithContext net) as [err |];
    [| cbv zeta; destruct (Do net) as [err | code];
       [| destruct (negb _)]];
    match goal with
    | |- context [handleCheckFailure ?s ?e ?rt ?m'] =>
        exists e;
        destruct (handleCheckFailure_spec s e rt m')
          as (_ & _ & _ & _ & _ & _ & _ & Hdb); exact Hdb
    | |- context [handleCheckSuccess ?s ?rt ?m'] =>
        exists "";
        destruct (handleCheckSuccess_spec s rt m')
          as (_ & _ & _ & _ & _ & _ & _ & Hdb); exact Hdb
    end.
Qed.

(** C10.  Every record a check adds to the history, or writes over an
    older one, has status code 0, whatever the network answered. *)
Theorem persisted_status_code_is_zero
  (state : EndpointState.t) (net : Network) (m : Monitor)
  (d d' : Database) (key : string) (record : HealthCheckRecord.t) :
  db m = Some d ->
  db (checkEndpoint state net m).2 = Some d' ->
  history d' !! key = Some (Doc record) ->
  history d !! key <> Some (Doc record) ->
  HealthCheckRecord.StatusCode record = 0.
Proof.
  intros Hd Hd' Hnew Hold.
  destruct (checkEndpoint_db state net m) as [errorMsg Hdb].
  rewrite Hd' , Hd in Hdb. unfold db_after_save in Hdb.
  destruct (SaveHealthCheckRecord _ d) as [err | d1] eqn:Hsave.
  - injection Hdb as ->. contradiction.
  - injection Hdb as ->.
    apply SaveHealthCheckRecord_history in Hsave as [k Hh].
    rewrite Hh in Hnew. destruct (decide (k = key)) as [-> | Hne].
    + rewrite lookup_insert_eq in Hnew. by injection Hnew as <-.
    + rewrite lookup_insert_ne in Hnew by done. contradiction.
Qed.

Lemma persisted_status_code_is_zero_witness :
  let m' := (checkEndpoint demo_state demo_net demo_monitor).2 in
  let key := "API-https-x:1700000002000000000" in
  let record :=
    HealthCheckRecord.mk "API-https-x" (demo_clock 2) "unknown"
                         (1 * Second) 0 "" in
  db m' = Some (mkDatabase ∅ {[ key := Doc record ]})
  /\ HealthCheckRecord.StatusCode record = 0.
Proof.
  intros m' key record.
  assert (Hdb : db m' = Some (mkDatabase ∅ {[ key := Doc record ]})).
  { vm_compute. reflexivity. }
  split; [exact Hdb |].
  apply (persisted_status_code_is_zero demo_state demo_net demo_monitor
           (mkDatabase ∅ ∅) (mkDatabase ∅ {[ key := Doc record ]})
           key record).
  - reflexivity.
  - exact Hdb.
  - vm_compute. reflexivity.
  - vm_compute. discriminate.
Defined.

(** ** The registry: removing an endpoint *)

(** C9.  Removing an ID that is neither stored nor monitored returns no
    error and changes nothing: neither the stored endpoints nor the
    runtime states. *)
Theorem RemoveEndpoint_absent_is_noop
  (id : string) (m : Monitor) (d : Database) :
  db m = Some d ->
  endpoints d !! id = None ->
  states m !! id = None ->
  RemoveEndpoint id m = (Some None, m).
Proof.
  intros Hdb Hd Hs.
  destruct m as [cfg sts al dbo clk n], d as [eps hist]. cbn in *. subst dbo.
  unfold RemoveEndpoint, DeleteEndpoint, bucket_Delete, set_states, set_db,
    set_endpoints. cbn.
  by rewrite !delete_id.
Qed.

Lemma RemoveEndpoint_absent_is_noop_witness :
  RemoveEndpoint "no-such-endpoint" demo_monitor = (Some None, demo_monitor).
Proof.
  apply (RemoveEndpoint_absent_is_noop "no-such-endpoint" demo_monitor
           (mkDatabase ∅ ∅)); reflexivity.
Defined.

(** ** The history store *)

Lemma elem_of_bucket_cursor {V : Type} (b : Bucket V) (k : string) (v : V) :
  (k, v) ∈ bucket_cursor b <-> b !! k = Some v.
Proof.
  unfold bucket_cursor. rewrite merge_sort_Permutation.
  apply elem_of_map_to_list.
Qed.

Lemma elem_of_old_keys cutoff c acc k :
  k ∈ old_keys cutoff c acc
  <-> k ∈ acc \/ exists v, (k, v) ∈ c /\ expired cutoff v = true.
Proof.
  revert acc. induction c as [| [k' v'] c IH]; intros acc; cbn.
  - split; [auto |]. intros [H | (v & H & _)]; [done |].
    by apply elem_of_nil in H.
  - unfold expired in *.
    destruct (json_Unmarshal v') as [record |] eqn:Hv;
      [destruct (time_Before _ cutoff) eqn:Hb |]; rewrite IH; clear IH.
    + rewrite elem_of_app, list_elem_of_singleton. split.
      * intros [[H | ->] | (v & H & He)]; [auto | | ].
        -- right. exists v'. rewrite Hv. split; [left | done].
        -- right. exists v. split; [by right | done].
      * intros [H | (v & H & He)]; [auto |].
        apply elem_of_cons in H as [[= -> ->] | H]; [auto |].
        right. eauto.
    + split.
      * intros [H | (v & H & He)]; [auto |].
        right. exists v. split; [by right | done].
      * intros [H | (v & H & He)]; [auto |].
        apply elem_of_cons in H as [[= -> ->] | H].
        -- rewrite Hv in He. congruence.
        -- right. eauto.
    + split.
      * intros [H | (v & H & He)]; [auto |].
        right. exists v. split; [by right | done].
      * intros [H | (v & H & He)]; [auto |].
        apply elem_of_cons in H as [[= -> ->] | H].
        -- rewrite Hv in He. congruence.
        -- right. eauto.
Qed.

Lemma delete_keys_lookup {V : Type} keys (b : Bucket V) n :
  exists b' n',
    delete_keys keys b n = inr (b', n')
    /\ forall k, b' !! k = if decide (k ∈ keys) then None else b !! k.
Proof.
  revert b n. induction keys as [| key keys IH]; intros b n; cbn.
  - exists b, n. split; [done |]. intros k.
    destruct (decide (k ∈ [])) as [H |]; [by apply elem_of_nil in H | done].
  - destruct (IH (delete key b) (int_add n 1)) as (b' & n' & Heq & Hl).
    exists b', n'. split; [done |]. intros k. rewrite Hl.
    destruct (decide (k ∈ keys)) as [Hin | Hnin].
    + rewrite decide_True; [done | by right].
    + destruct (decide (k = key)) as [-> | Hne].
      * rewrite decide_True by left. apply lookup_delete_eq.
      * rewrite decide_False.
        -- by apply lookup_delete_ne.
        -- intros H. apply elem_of_cons in H as [? | ?]; done.
Qed.



(** Pruning the five daily records just after the newest leaves the three
    that are at most three days old, the one at the cutoff included. *)
Example prune_scenario :
  map (fun kv => json_Unmarshal kv.2)
      (bucket_cursor (history (CleanupOldData time_UTC (day 6) five_days).2))
  = [Some (daily_record 3); Some (daily_record 4); Some (daily_record 5)].
Proof. vm_compute. reflexivity. Qed.

(** Across a change of the offset the three days are not 72 hours.  At
    noon in New York on 2026-03-10 the cutoff is noon on 2026-03-07, 71
    hours earlier, and a record written 71 hours and a half before the
    prune is deleted. *)
Example prune_New_York :
  let now := noon_2026_03_10 in
  let record := record_at (now - (71 * Hour + 1800 * Second)) in
  let d := save_all [record] (mkDatabase ∅ ∅) in
  time_AddDate_days new_york now (- 3) = now - 71 * Hour
  /\ history d !! key_of record = Some (Doc record)
  /\ history (CleanupOldData new_york now d).2 !! key_of record = None.
Proof. vm_compute. repeat split. Qed.

(** ** The registry: adding an endpoint *)

Lemma bucket_Put_inr {V : Type} (k : string) (v : V) (b b' : Bucket V) :
  bucket_Put k v b = inr b' -> b' = <[k := v]> b.
Proof. unfold bucket_Put. repeat case_match; congruence. Qed.

Lemma decodable_empty {A : Type} : decodable (∅ : Bucket (Encoded A)).
Proof. intros k v H. by rewrite lookup_empty in H. Qed.

Lemma decodable_SaveEndpoint now endpoint d d' :
  decodable (endpoints d) ->
  (SaveEndpoint now endpoint d).2 = inr d' ->
  decodable (endpoints d').
Proof.
  intros Hd. unfold SaveEndpoint. cbv zeta.
  match goal with
  | |- context [bucket_Put ?k ?v ?b] =>
      destruct (bucket_Put k v b) as [err | b'] eqn:Hput
  end; cbn [snd]; intros Heq; [done |]. injection Heq as <-.
  apply bucket_Put_inr in Hput as ->.
  intros k v. cbn. intros Hk.
  apply lookup_insert_Some in Hk as [[_ <-] | [_ Hk]]; [by eexists | eauto].
Qed.

Lemma decodable_DeleteEndpoint id d :
  decodable (endpoints d) -> decodable (endpoints (DeleteEndpoint id d).2).
Proof.
  intros Hd k v. cbn. intros Hk.
  apply lookup_delete_Some in Hk as [_ Hk]. eauto.
Qed.

Lemma unmarshal_each_decodable c acc :
  (forall k v, (k, v) ∈ c -> is_Some (json_Unmarshal v)) ->
  exists eps,
    unmarshal_each c acc = inr (acc ++ eps)%list
    /\ forall k ep, (k, Doc ep) ∈ c -> ep ∈ eps.
Proof.
  revert acc. induction c as [| [k v] c IH]; intros acc Hc; cbn.
  - exists []. rewrite app_nil_r. split; [done |].
    intros k ep H. by apply elem_of_nil in H.
  - destruct (Hc k v) as [ep Hep]; [left |]. rewrite Hep.
    destruct (IH (acc ++ [ep])%list) as (eps & Heq & Hin).
    { intros k' v' H. apply (Hc k' v'). by right. }
    exists (ep :: eps). rewrite Heq, <- app_assoc. split; [done |].
    intros k' ep' H. apply elem_of_cons in H as [[= -> <-] | H].
    + cbn in Hep. injection Hep as ->. left.
    + right. eauto.
Qed.

Lemma find_conflict_found all req ep :
  ep ∈ all ->
  StoredEndpoint.Name ep = EndpointRequest.Name req
  \/ StoredEndpoint.URL ep = EndpointRequest.URL req ->
  exists message,
    find_conflict all req = Some (http_Error message StatusConflict).
Proof.
  intros Hin Hdup. induction all as [| ep' all IH]; cbn.
  - by apply elem_of_nil in Hin.
  - repeat case_decide; eauto.
    apply elem_of_cons in Hin as [-> | Hin]; [| by apply IH].
    destruct Hdup; contradiction.
Qed.

Section AddEndpoint.

Variable time_ParseDuration : string -> error + Duration.

(** C8.  A POST request whose body decodes to a definition is rejected
    with 400 when its name or its URL is empty and, otherwise, with 409
    Conflict when a stored endpoint has its name or its URL; in both cases
    the store and the runtime states are left as they were. *)
Theorem handleAddEndpoint_rejects
  (r : Request) (req : EndpointRequest.t) (m : Monitor) :
  request_Method r = "POST" ->
  request_Body r = inr req ->
  (EndpointRequest.Name req = "" \/ EndpointRequest.URL req = "" ->
   handleAddEndpoint time_ParseDuration r m
   = (Some (http_Error "Name and URL are required" StatusBadRequest), m))
  /\ (EndpointRequest.Name req <> "" ->
      EndpointRequest.URL req <> "" ->
      forall d : Database,
        db m = Some d ->
        decodable (endpoints d) ->
        (exists id ep,
            endpoints d !! id = Some (Doc ep)
            /\ (StoredEndpoint.Name ep = EndpointRequest.Name req
                \/ StoredEndpoint.URL ep = EndpointRequest.URL req)) ->
        exists message,
          handleAddEndpoint time_ParseDuration r m
          = (Some (http_Error message StatusConflict), m)).
Proof.
  intros Hm Hb. unfold handleAddEndpoint. rewrite Hm, Hb.
  rewrite (bool_decide_true ("POST" = "POST")) by done. cbn [negb].
  split.
  - intros Hempty.
    replace (bool_decide (EndpointRequest.Name req = "")
             || bool_decide (EndpointRequest.URL req = "")) with true; [done |].
    symmetry. apply orb_true_iff.
    destruct Hempty as [H | H]; [left | right]; by apply bool_decide_eq_true.
  - intros Hn Hu d Hdb Hdec (id & ep & Hid & Hdup).
    rewrite (bool_decide_false _ Hn), (bool_decide_false _ Hu). cbn [orb].
    rewrite Hdb. unfold GetAllEndpoints.
    destruct (unmarshal_each_decodable (bucket_cursor (endpoints d)) [])
      as (eps & -> & Hin).
    { intros k v H. apply elem_of_bucket_cursor in H. eauto. }
    cbn [app].
    destruct (find_conflict_found eps req ep) as [message ->]; [| done |].
    + apply (Hin id). by apply elem_of_bucket_cursor.
    + by exists message.
Qed.

End AddEndpoint.

Lemma handleAddEndpoint_rejects_witness :
  let first :=
    handleAddEndpoint no_duration (add_request "API" "https://x")
                      demo_monitor in
  first.1 = Some (Added stored_api)
  /\ exists message,
       handleAddEndpoint no_duration (add_request "API" "https://y") first.2
       = (Some (http_Error message StatusConflict), first.2).
Proof.
  intros first. split; [vm_compute; reflexivity |].
  refine (proj2 (handleAddEndpoint_rejects no_duration
                   (add_request "API" "https://y")
                   (EndpointRequest.mk "" "API" "https://y" "" "" "" 0 ∅ 0 0)
                   first.2 eq_refl eq_refl)
                _ _ (mkDatabase {[ "API-https-x" := Doc stored_api ]} ∅)
                _ _ _).
  - discriminate.
  - discriminate.
  - vm_compute. reflexivity.
  - intros k v Hk. cbn in Hk.
    apply lookup_singleton_Some in Hk as [_ <-]. by eexists.
  - exists "API-https-x", stored_api. split; [reflexivity | left; reflexivity].
Defined.

(** ** Endpoint IDs *)

Lemma chars_app (s t : string) : chars (s ++ t) = (chars s ++ chars t)%list.
Proof. induction s as [| c s IH]; cbn; [done | by rewrite <- IH]. Qed.

Lemma chars_length (s : string) : String.length s = length (chars s).
Proof. induction s as [| c s IH]; cbn; [done | by rewrite IH]. Qed.

Lemma chars_get (n : nat) (s : string) : String.get n s = chars s !! n.
Proof.
  revert n. induction s as [| c s IH]; intros [| n]; cbn; auto.
Qed.

Lemma chars_substring_0 (n : nat) (s : string) :
  chars (String.substring 0 n s) = take n (chars s).
Proof.
  revert n. induction s as [| c s IH]; intros [| n]; cbn; try done.
  by rewrite IH.
Qed.

(** *** First loop *)

Lemma sanitize_loop_chars (combined id : string) :
  chars (sanitize_loop combined id)
  = (chars id ++ concat (map keep (chars combined)))%list.
Proof.
  revert id. induction combined as [| c rest IH]; intros id; cbn.
  - by rewrite app_nil_r.
  - unfold keep at 1.
    destruct (is_alnum c); [| destruct (is_separator c)];
      rewrite IH, ?chars_app; cbn; by rewrite <- ?app_assoc.
Qed.

Lemma is_alnum_not_dash (c : ascii) : is_alnum c = true -> c <> dash.
Proof. intros H ->. vm_compute in H. discriminate. Qed.

Lemma Forall_id_char_keep (l : list ascii) :
  Forall id_char (concat (map keep l)).
Proof.
  induction l as [| c l IH]; cbn; [constructor |].
  apply Forall_app. split; [| done]. unfold keep.
  destruct (is_alnum c) eqn:Ha; [| destruct (is_separator c)].
  - apply Forall_singleton. by left.
  - apply Forall_singleton. by right.
  - constructor.
Qed.

(** *** Second loop *)

Lemma collapse_loop_chars (id result : string) (prevDash : bool) :
  chars (collapse_loop id result prevDash)
  = (chars result ++ collapse (chars id) prevDash)%list.
Proof.
  revert result prevDash.
  induction id as [| c rest IH]; intros result prevDash; cbn.
  - by rewrite app_nil_r.
  - fold dash. destruct (Ascii.eqb c dash); rewrite IH.
    + destruct prevDash; cbn; rewrite ?chars_app; cbn;
        by rewrite <- ?app_assoc.
    + rewrite chars_app. cbn. by rewrite <- app_assoc.
Qed.

Lemma Forall_collapse (P : ascii -> Prop) (l : list ascii) (prevDash : bool) :
  Forall P l -> Forall P (collapse l prevDash).
Proof.
  intros H. revert prevDash. induction H as [| c l Hc Hl IH]; intros p; cbn.
  - constructor.
  - destruct (Ascii.eqb c dash); [destruct p |]; cbn; auto.
Qed.

Lemma collapse_single_dashes (l : list ascii) (prevDash : bool) :
  single_dashes (collapse l prevDash)
  /\ (prevDash = true -> head (collapse l prevDash) <> Some dash).
Proof.
  revert prevDash. induction l as [| c l IH]; intros p; cbn.
  - split; [done | by intros _].
  - destruct (Ascii.eqb_spec c dash) as [-> | Hne].
    + destruct (IH true) as [Hs Hh]. destruct p; cbn.
      * split; [done | by intros _; apply Hh].
      * split; [| done]. split; [by intros _; apply Hh | done].
    + destruct (IH false) as [Hs _]. cbn. split.
      * split; [done | done].
      * intros _. cbn. congruence.
Qed.

Lemma single_dashes_app_inv (l1 l2 : list ascii) :
  single_dashes (l1 ++ l2) -> single_dashes l1.
Proof.
  induction l1 as [| c l1 IH]; cbn; [done |].
  intros [Hh Hs]. split; [| auto].
  intros Hc. specialize (Hh Hc). destruct l1; cbn in *; [done | done].
Qed.

Lemma single_dashes_no_double (l : list ascii) :
  single_dashes l -> forall l1 l2, l <> (l1 ++ dash :: dash :: l2)%list.
Proof.
  intros Hs l1. revert l Hs. induction l1 as [| c l1 IH]; intros l Hs l2 ->.
  - cbn in Hs. destruct Hs as [Hh _]. by apply Hh.
  - cbn in Hs. destruct Hs as [_ Hs]. by eapply IH.
Qed.

(** *** Third loop *)

Lemma trim_loop_chars (fuel : nat) (result : string) :
  (length (chars result) <= fuel)%nat ->
  exists n : nat,
    chars result = (chars (trim_loop fuel result) ++ replicate n dash)%list
    /\ last (chars (trim_loop fuel result)) <> Some dash.
Proof.
  revert result. induction fuel as [| fuel IH]; intros result Hlen.
  - apply Nat.le_0_r, nil_length_inv in Hlen. exists O. cbn.
    rewrite Hlen. by split.
  - cbn [trim_loop]. rewrite chars_get, chars_length.
    destruct (chars result) as [| c l _] eqn:Hl using rev_ind.
    + exists O. cbn. rewrite Hl. by split.
    + rewrite length_app in *. cbn [length] in *.
      replace (length l + 1 - 1)%nat with (length l) by lia.
      rewrite list_lookup_middle by done.
      replace (0 <? length l + 1)%nat with true
        by (symmetry; apply Nat.ltb_lt; lia).
      cbn [andb]. fold dash. destruct (Ascii.eqb_spec c dash) as [-> | Hne].
      * destruct (IH (String.substring 0 (length l) result)) as (n & Hn & Hlast).
        { rewrite chars_substring_0, Hl, take_app_length. lia. }
        rewrite chars_substring_0, Hl, take_app_length in Hn.
        exists (S n). split; [| done].
        rewrite Hn at 1. rewrite <- app_assoc. f_equal.
        symmetry. apply replicate_cons_app.
      * exists O. rewrite Hl, app_nil_r. split; [done |].
        rewrite last_snoc. congruence.
Qed.

(** The three loops together: the ID is what the first two loops
    produce, less the dashes at its end. *)
Lemma generateIDWithURL_chars (name url : string) :
  exists n : nat,
    collapse (concat (map keep (chars (name ++ "-" ++ url)))) false
    = (chars (generateIDWithURL name url) ++ replicate n dash)%list
    /\ last (chars (generateIDWithURL name url)) <> Some dash.
Proof.
  unfold generateIDWithURL. cbv zeta.
  set (combined := name ++ "-" ++ url).
  set (sid := sanitize_loop combined "").
  set (result := collapse_loop sid "" false).
  assert (Hsid : chars sid = concat (map keep (chars combined)))
    by apply sanitize_loop_chars.
  assert (Hres : chars result = collapse (chars sid) false)
    by apply collapse_loop_chars.
  destruct (trim_loop_chars (String.length result) result)
    as (n & Hn & Hlast); [by rewrite chars_length |].
  exists n. by rewrite <- Hsid, <- Hres.
Qed.

Lemma generateIDWithURL_id_chars (name url : string) :
  Forall id_char (chars (generateIDWithURL name url)).
Proof.
  destruct (generateIDWithURL_chars name url) as (n & Hn & _).
  assert (H : Forall id_char
                (collapse (concat (map keep (chars (name ++ "-" ++ url))))
                          false))
    by apply Forall_collapse, Forall_id_char_keep.
  rewrite Hn in H. by apply Forall_app in H as [H _].
Qed.

(** The letters and digits of the ID are those of the name followed by
    those of the URL: the loops drop or rewrite other characters only. *)
Lemma filter_alnum_keep (l : list ascii) :
  List.filter is_alnum (concat (map keep l)) = List.filter is_alnum l.
Proof.
  induction l as [| c l IH]; [done |]. cbn [map concat].
  rewrite List.filter_app, IH. unfold keep. cbn [List.filter].
  destruct (is_alnum c) eqn:Hc; cbn [List.filter app]; [by rewrite Hc |].
  by destruct (is_separator c).
Qed.

Lemma filter_alnum_collapse (l : list ascii) (prevDash : bool) :
  List.filter is_alnum (collapse l prevDash) = List.filter is_alnum l.
Proof.
  revert prevDash. induction l as [| c l IH]; intros prevDash; [done |].
  cbn [collapse List.filter].
  destruct (Ascii.eqb_spec c dash) as [-> | Hne].
  - rewrite List.filter_app, IH. by destruct prevDash.
  - cbn [List.filter]. by rewrite IH.
Qed.

Lemma filter_alnum_dashes (n : nat) :
  List.filter is_alnum (replicate n dash) = [].
Proof. induction n as [| n IH]; [done |]. exact IH. Qed.

Lemma generateIDWithURL_alnums (name url : string) :
  alnums (generateIDWithURL name url) = (alnums name ++ alnums url)%list.
Proof.
  destruct (generateIDWithURL_chars name url) as (n & Hn & _).
  apply (f_equal (List.filter is_alnum)) in Hn.
  rewrite filter_alnum_collapse, filter_alnum_keep, List.filter_app,
    filter_alnum_dashes, app_nil_r, !chars_app, !List.filter_app in Hn.
  unfold alnums. by rewrite <- Hn.
Qed.

(** C4 (as the code has it).  The ID is a function of the pair.  It
    consists of letters, digits and dashes, does not end with a dash and
    has no two dashes in a row; it does not start with a dash when the
    name starts with a letter or a digit.  Its letters and digits are
    those of the name followed by those of the URL, so that under one
    name two URLs whose letters and digits differ get two IDs. *)
Theorem generateIDWithURL_shape (name url : string) :
  let id := generateIDWithURL name url in
  (forall name' url' : string,
      name' = name -> url' = url -> generateIDWithURL name' url' = id)
  /\ Forall id_char (chars id)
  /\ last (chars id) <> Some dash
  /\ (forall l1 l2 : list ascii, chars id <> (l1 ++ dash :: dash :: l2)%list)
  /\ (forall (c : ascii) (rest : string),
         name = String c rest -> is_alnum c = true ->
         head (chars id) <> Some dash)
  /\ alnums id = (alnums name ++ alnums url)%list
  /\ (forall url' : string,
         alnums url' <> alnums url -> generateIDWithURL name url' <> id).
Proof.
  intros id. split; [by intros ? ? -> -> |].
  split; [apply generateIDWithURL_id_chars |].
  destruct (generateIDWithURL_chars name url) as (n & Hn & Hlast).
  fold id in Hn, Hlast. split; [done |]. split; [| split; [| split]].
  - apply single_dashes_no_double.
    apply (single_dashes_app_inv _ (replicate n dash)). rewrite <- Hn.
    apply collapse_single_dashes.
  - intros c rest -> Hc Hhead.
    assert (Hc' : c <> dash) by by apply is_alnum_not_dash.
    change (chars (String c rest ++ "-" ++ url))
      with (c :: chars (rest ++ "-" ++ url)) in Hn.
    cbn [map concat] in Hn. unfold keep at 1 in Hn. rewrite Hc in Hn.
    cbn [app collapse] in Hn.
    rewrite (proj2 (Ascii.eqb_neq c dash) Hc') in Hn.
    destruct (chars id) as [| c' l]; cbn in *.
    + destruct n; cbn in Hn; [done | congruence].
    + congruence.
  - apply generateIDWithURL_alnums.
  - intros url' Hne Heq. apply Hne.
    apply (f_equal alnums) in Heq. subst id.
    rewrite !generateIDWithURL_alnums in Heq. by apply app_inv_head in Heq.
Qed.

Lemma generateIDWithURL_shape_witness :
  generateIDWithURL "API" "https://x" = "API-https-x"
  /\ head (chars (generateIDWithURL "API" "https://x")) <> Some dash
  /\ generateIDWithURL "API" "https://y" <> generateIDWithURL "API" "https://x".
Proof.
  split; [reflexivity |].
  destruct (generateIDWithURL_shape "API" "https://x")
    as (_ & _ & _ & _ & Hhead & _ & Hdistinct).
  split.
  - apply (Hhead "A"%char "PI"); reflexivity.
  - apply (Hdistinct "https://y"). vm_compute. discriminate.
Defined.

(** The ID of a name that starts with a separator starts with a dash. *)
Lemma generateIDWithURL_leading_dash :
  generateIDWithURL "-a" "b" = "-a-b"
  /\ ~ (forall name url : string,
           head (chars (generateIDWithURL name url)) <> Some dash).
Proof.
  split; [reflexivity |]. intros H. by apply (H "-a" "b").
Qed.

(** Two URLs that differ only in characters the ID drops or merges get the
    same ID under one name, against the comment above [generateID] in the
    source (the ID is to tell apart endpoints with one name and different
    URLs). *)
Example generateIDWithURL_collision :
  "https://x" <> "https://x/"
  /\ generateIDWithURL "API" "https://x" = generateIDWithURL "API" "https://x/".
Proof. split; [discriminate | reflexivity]. Qed.

(** ** The history query *)

(** The limit cuts the unbounded answer: a positive limit keeps its first
    [limit] records, any other limit keeps all of them. *)
Lemma GetHealthHistory_limit (endpointID : string) (limit : Z) (d : Database) :
  GetHealthHistory endpointID limit d
  = if 0 <? limit
    then take (Z.to_nat limit) (GetHealthHistory endpointID 0 d)
    else GetHealthHistory endpointID 0 d.
Proof.
  unfold GetHealthHistory. cbv zeta.
  set (records := reverse_in_place _).
  change (0 <? 0) with false. cbn [andb].
  destruct (Z.ltb_spec 0 limit) as [Hpos | Hneg]; cbn [andb]; [| done].
  destruct (Z.ltb_spec limit (Z.of_nat (length records))) as [Hlt | Hge];
    [done |].
  symmetry. apply take_ge. lia.
Qed.

Lemma GetHealthHistory_length (endpointID : string) (limit : Z) (d : Database) :
  0 < limit ->
  (Z.of_nat (length (GetHealthHistory endpointID limit d)) <= limit).
Proof.
  intros Hpos. rewrite GetHealthHistory_limit.
  replace (0 <? limit) with true by (symmetry; by apply Z.ltb_lt).
  rewrite length_take. lia.
Qed.


(** *** Keys in byte order *)

Lemma ascii_compare_refl (c : ascii) : Ascii.compare c c = Eq.
Proof. unfold Ascii.compare. apply N.compare_refl. Qed.

Lemma append_cons (c : ascii) (s t : string) :
  String c s ++ t = String c (s ++ t).
Proof. reflexivity. Qed.

Lemma compare_app (p a b : string) :
  String.compare (p ++ a) (p ++ b) = String.compare a b.
Proof.
  induction p as [| c p IH]; [done |].
  rewrite !append_cons. cbn [String.compare].
  by rewrite ascii_compare_refl.
Qed.

Lemma ltb_leb (k p : string) : String.ltb k p = negb (String.leb p k).
Proof.
  unfold String.ltb, String.leb. rewrite (String.compare_antisym k p).
  by destruct (String.compare p k).
Qed.

Lemma has_prefix_nil (k : string) : has_prefix "" k = true.
Proof. by destruct k. Qed.

Lemma has_prefix_cons (a b : ascii) (p k : string) :
  has_prefix (String a p) (String b k) = Ascii.eqb a b && has_prefix p k.
Proof.
  unfold has_prefix. cbn. rewrite (Ascii.eqb_sym b a).
  destruct (Ascii.eqb a b), (String.length p <=? String.length k)%nat; cbn;
    rewrite ?andb_false_r; done.
Qed.

Lemma has_prefix_iff (p k : string) :
  has_prefix p k = true <-> exists t, k = p ++ t.
Proof.
  revert k. induction p as [| a p IH]; intros k.
  - rewrite has_prefix_nil. split; [by exists k | done].
  - destruct k as [| b k].
    + split; [done | by intros [t Ht]].
    + rewrite has_prefix_cons, andb_true_iff, Ascii.eqb_eq, IH. split.
      * intros [-> [t ->]]. by exists t.
      * intros [t Ht]. rewrite append_cons in Ht. injection Ht as -> ->.
        eauto.
Qed.

Lemma append_nil_r (s : string) : s ++ "" = s.
Proof.
  induction s as [| a s IH]; [done |]. by rewrite append_cons, IH.
Qed.

Lemma prefix_leb (p t : string) : String.leb p (p ++ t) = true.
Proof.
  unfold String.leb. rewrite <- (append_nil_r p) at 1.
  rewrite compare_app. by destruct t.
Qed.

(** The keys with a given prefix are an interval of the key order. *)
Lemma between_prefix (p k t : string) :
  String.leb p k = true -> String.leb k (p ++ t) = true ->
  exists t', k = p ++ t'.
Proof.
  revert k. induction p as [| a p IH]; intros k Hpk Hkt; [by exists k |].
  destruct k as [| b k]; [done |].
  unfold String.leb in *. rewrite append_cons in Hkt.
  cbn [String.compare] in Hpk, Hkt.
  destruct (Ascii.compare a b) eqn:Hab.
  - apply Ascii.compare_eq_iff in Hab as <-.
    rewrite ascii_compare_refl in Hkt.
    destruct (IH k) as [t' ->]; [done | done |]. by exists t'.
  - rewrite Ascii.compare_antisym, Hab in Hkt. done.
  - done.
Qed.

Global Instance key_le_trans {V : Type} : Transitive (@key_le V).
Proof. intros x y z. unfold key_le. apply transitivity. Qed.

Global Instance key_le_total {V : Type} : Total (@key_le V).
Proof. intros x y. unfold key_le. apply total, _. Qed.

Lemma bucket_cursor_sorted {V : Type} (b : Bucket V) :
  StronglySorted key_le (bucket_cursor b).
Proof. apply StronglySorted_merge_sort; apply _. Qed.

Lemma bucket_cursor_NoDup {V : Type} (b : Bucket V) :
  NoDup (bucket_cursor b).*1.
Proof.
  unfold bucket_cursor. rewrite merge_sort_Permutation.
  apply NoDup_fst_map_to_list.
Qed.

(** *** The scan of [GetHealthHistory] *)

Lemma scan_prefix_from prefix c acc :
  StronglySorted key_le c ->
  (forall kv, kv ∈ c -> String.leb prefix kv.1 = true) ->
  scan_prefix prefix c acc = (acc ++ decode_all (with_prefix prefix c))%list.
Proof.
  intros Hs. revert acc.
  induction Hs as [| [k v] c Hs IH Hall]; intros acc Hge; cbn [scan_prefix].
  - by rewrite app_nil_r.
  - assert (Hge' : forall kv, kv ∈ c -> String.leb prefix kv.1 = true)
      by (intros kv Hin; apply Hge; by right).
    unfold with_prefix, decode_all in *. rewrite filter_cons. cbn [fst].
    destruct (has_prefix prefix k) eqn:Hk.
    + rewrite decide_True by done. cbn [omap list_omap snd].
      destruct (json_Unmarshal v) as [record |]; rewrite IH by done.
      * by rewrite <- app_assoc.
      * done.
    + rewrite decide_False by congruence.
      replace (filter _ c) with (@nil (string * Encoded HealthCheckRecord.t));
        [by rewrite app_nil_r |].
      symmetry. apply elem_of_nil_inv. intros [k' v'] Hin.
      apply list_elem_of_filter in Hin as [Hp Hin]. cbn [fst] in Hp.
      apply has_prefix_iff in Hp as [t ->].
      rewrite Forall_forall in Hall. specialize (Hall _ Hin).
      unfold key_le, String.le in Hall. cbn [fst] in Hall.
      apply Is_true_true in Hall.
      destruct (between_prefix prefix k t) as [t' ->]; [| done |].
      * apply (Hge (k, v)). left.
      * assert (has_prefix prefix (prefix ++ t') = true)
          by (apply has_prefix_iff; eauto).
        congruence.
Qed.

Lemma scan_prefix_seek prefix c acc :
  StronglySorted key_le c ->
  scan_prefix prefix (cursor_Seek prefix c) acc
  = (acc ++ decode_all (with_prefix prefix c))%list.
Proof.
  intros Hs. induction Hs as [| [k v] c Hs IH Hall]; cbn [cursor_Seek].
  - cbn. by rewrite app_nil_r.
  - cbn [fst]. destruct (String.ltb k prefix) eqn:Hlt.
    + rewrite IH. unfold with_prefix. rewrite filter_cons_False; [done |].
      cbn [fst]. intros Hp. apply has_prefix_iff in Hp as [t ->].
      rewrite ltb_leb, prefix_leb in Hlt. done.
    + rewrite ltb_leb in Hlt. apply negb_false_iff in Hlt.
      apply scan_prefix_from; [by constructor |].
      intros kv Hin. apply elem_of_cons in Hin as [-> | Hin]; [done |].
      rewrite Forall_forall in Hall. specialize (Hall _ Hin).
      unfold key_le in Hall. cbn [fst] in Hall.
      apply Is_true_true. apply Is_true_true in Hlt.
      by etrans.
Qed.

(** *** The in-place reversal *)

Lemma insert_at_length {A : Type} (a b : list A) (x y : A) :
  <[length a := y]> (a ++ x :: b)%list = (a ++ y :: b)%list.
Proof.
  rewrite <- (Nat.add_0_r (length a)). by rewrite insert_app_r.
Qed.

Lemma swap_ends {A : Type} (a mid b : list A) (x y : A) :
  swap (length a) (length a + S (length mid)) (a ++ x :: mid ++ y :: b)%list
  = (a ++ y :: mid ++ x :: b)%list.
Proof.
  unfold swap.
  rewrite (list_lookup_middle a (mid ++ y :: b) x) by done.
  replace (a ++ x :: mid ++ y :: b)%list
    with ((a ++ x :: mid) ++ y :: b)%list at 1
    by (by rewrite <- app_assoc).
  rewrite (list_lookup_middle (a ++ x :: mid) b y)
    by (rewrite length_app; cbn; lia).
  rewrite insert_at_length.
  replace (a ++ y :: mid ++ y :: b)%list
    with ((a ++ y :: mid) ++ y :: b)%list
    by (by rewrite <- app_assoc).
  replace (length a + S (length mid))%nat with (length (a ++ y :: mid))
    by (rewrite length_app; cbn; lia).
  rewrite insert_at_length. by rewrite <- app_assoc.
Qed.

Lemma reverse_loop_middle {A : Type} (fuel : nat) (a mid b : list A) :
  (length mid <= fuel)%nat ->
  reverse_loop fuel (length a) (length a + length mid) (a ++ mid ++ b)%list
  = (a ++ reverse mid ++ b)%list.
Proof.
  revert a mid b. induction fuel as [| fuel IH]; intros a mid b Hlen.
  - apply Nat.le_0_r, nil_length_inv in Hlen. by subst mid.
  - cbn [reverse_loop]. destruct mid as [| x mid]; [| destruct mid as [| y' mid _] using rev_ind].
    + rewrite Nat.add_0_r.
      replace (S (length a) <? length a)%nat with false
        by (symmetry; apply Nat.ltb_ge; lia).
      done.
    + replace (S (length a) <? length a + length [x])%nat with false
        by (symmetry; apply Nat.ltb_ge; cbn; lia).
      done.
    + cbn [length] in *. rewrite length_app in *. cbn [length] in *.
      replace (S (length a) <? length a + S (length mid + 1))%nat with true
        by (symmetry; apply Nat.ltb_lt; lia).
      replace (Init.Nat.pred (length a + S (length mid + 1)))
        with (length a + S (length mid))%nat by lia.
      replace (a ++ (x :: mid ++ [y']) ++ b)%list
        with (a ++ x :: mid ++ y' :: b)%list
        by (cbn; by rewrite <- app_assoc).
      rewrite swap_ends.
      replace (a ++ y' :: mid ++ x :: b)%list
        with ((a ++ [y']) ++ mid ++ x :: b)%list
        by (by rewrite <- app_assoc).
      replace (S (length a)) with (length (a ++ [y']))
        by (rewrite length_app; cbn; lia).
      replace (length a + S (length mid))%nat
        with (length (a ++ [y']) + length mid)%nat
        by (rewrite length_app; cbn; lia).
      rewrite IH by lia.
      rewrite reverse_cons, reverse_snoc. cbn.
      by rewrite <- !app_assoc.
Qed.

(** The swap loop of the source reverses the slice. *)
Lemma reverse_in_place_reverse {A : Type} (records : list A) :
  reverse_in_place records = reverse records.
Proof.
  unfold reverse_in_place.
  pose proof (reverse_loop_middle (length records) [] records []) as H.
  cbn in H. rewrite !app_nil_r in H. by apply H.
Qed.

(** *** Decimal numerals *)

Lemma digit_cases (n : N) :
  (n < 10)%N -> n ∈ [0; 1; 2; 3; 4; 5; 6; 7; 8; 9]%N.
Proof.
  intros Hn. destruct n as [| p]; [left |].
  repeat (destruct p as [p | p |]; try lia); repeat constructor.
Qed.

Lemma digit_compare (a b : N) :
  (a < 10)%N -> (b < 10)%N ->
  Ascii.compare (pretty_N_char a) (pretty_N_char b) = (a ?= b)%N.
Proof.
  intros Ha%digit_cases Hb%digit_cases.
  each_digit Ha; each_digit Hb; reflexivity.
Qed.

Lemma digit_not_colon (c : ascii) : is_digit c -> c <> ":"%char.
Proof.
  intros (n & Hn%digit_cases & ->). each_digit Hn; discriminate.
Qed.

Lemma pretty_N_go_digits (x : N) (s : string) :
  Forall is_digit (chars s) -> Forall is_digit (chars (pretty_N_go x s)).
Proof.
  revert s. induction (N.lt_wf_0 x) as [x _ IH]; intros s Hs.
  destruct (decide (x = 0%N)) as [-> | Hx]; [by rewrite pretty_N_go_0 |].
  rewrite pretty_N_go_step by lia. apply IH.
  - apply N.div_lt; lia.
  - cbn. constructor; [| done]. exists (x `mod` 10)%N.
    split; [apply N.mod_lt; lia | done].
Qed.

Lemma compare_digits (qx rx qy ry : N) :
  (rx < 10)%N -> (ry < 10)%N ->
  (10 * qx + rx ?= 10 * qy + ry)%N
  = match (qx ?= qy)%N with
    | Eq => (rx ?= ry)%N
    | c => c
    end.
Proof.
  intros Hx Hy.
  destruct (N.compare_spec qx qy) as [Heq | Hlt | Hgt].
  - destruct (N.compare_spec rx ry).
    + apply N.compare_eq_iff. lia.
    + apply N.compare_lt_iff. lia.
    + apply N.compare_gt_iff. lia.
  - apply N.compare_lt_iff. lia.
  - apply N.compare_gt_iff. lia.
Qed.

Lemma compare_by_tens (x y : N) :
  (x ?= y)%N
  = match (x `div` 10 ?= y `div` 10)%N with
    | Eq => (x `mod` 10 ?= y `mod` 10)%N
    | c => c
    end.
Proof.
  rewrite <- compare_digits by (apply N.mod_lt; lia).
  f_equal; apply N.div_mod; lia.
Qed.

(** Between numerals of the same width, the byte order is the order of
    the numbers. *)
Lemma pretty_N_go_compare (n : nat) (x y : N) (s s' : string) :
  (10 ^ N.of_nat n <= x < 10 ^ N.of_nat (S n))%N ->
  (10 ^ N.of_nat n <= y < 10 ^ N.of_nat (S n))%N ->
  String.compare (pretty_N_go x s) (pretty_N_go y s')
  = match (x ?= y)%N with
    | Eq => String.compare s s'
    | c => c
    end.
Proof.
  revert x y s s'. induction n as [| n IH]; intros x y s s' Hx Hy.
  - change (10 ^ N.of_nat 0)%N with 1%N in *.
    change (10 ^ N.of_nat 1)%N with 10%N in *.
    rewrite (pretty_N_go_step x), (pretty_N_go_step y) by lia.
    rewrite (N.div_small x 10), (N.div_small y 10) by lia.
    rewrite (N.mod_small x 10), (N.mod_small y 10) by lia.
    rewrite !pretty_N_go_0. cbn [String.compare].
    rewrite digit_compare by lia. done.
  - assert (Hpow : forall k, (10 ^ N.of_nat (S k) = 10 * 10 ^ N.of_nat k)%N).
    { intros k. rewrite Nat2N.inj_succ, N.pow_succ_r'. done. }
    rewrite (Hpow (S n)) in Hx, Hy. rewrite (Hpow n) in Hx, Hy.
    assert (0 < 10 ^ N.of_nat n)%N by (apply N.neq_0_lt_0, N.pow_nonzero; lia).
    rewrite (pretty_N_go_step x), (pretty_N_go_step y) by lia.
    rewrite IH.
    + rewrite (compare_by_tens x y).
      destruct (x `div` 10 ?= y `div` 10)%N; [| done | done].
      cbn [String.compare].
      rewrite digit_compare by (apply N.mod_lt; lia). done.
    + rewrite Hpow. split.
      * apply N.div_le_lower_bound; lia.
      * apply N.Div0.div_lt_upper_bound; lia.
    + rewrite Hpow. split.
      * apply N.div_le_lower_bound; lia.
      * apply N.Div0.div_lt_upper_bound; lia.
Qed.

Lemma fmt_d_positive (z : Z) :
  0 < z -> fmt_d z = pretty_N_go (Z.to_N z) "".
Proof.
  intros Hz. destruct z as [| p | p]; try lia.
  unfold fmt_d, pretty, pretty_Z, pretty, pretty_positive, pretty, pretty_N.
  by rewrite decide_False.
Qed.

Lemma fmt_d_compare (a b : Z) :
  nineteen_digits a -> nineteen_digits b ->
  String.compare (fmt_d a) (fmt_d b) = (a ?= b).
Proof.
  unfold nineteen_digits, max_int64. intros Ha Hb.
  rewrite !fmt_d_positive by lia.
  rewrite (pretty_N_go_compare 18).
  - rewrite <- Z2N.inj_compare by lia. by destruct (_ ?= _)%N.
  - change (10 ^ N.of_nat 18)%N with (Z.to_N (10 ^ 18)).
    change (10 ^ N.of_nat 19)%N with (Z.to_N (10 ^ 19)). lia.
  - change (10 ^ N.of_nat 18)%N with (Z.to_N (10 ^ 18)).
    change (10 ^ N.of_nat 19)%N with (Z.to_N (10 ^ 19)). lia.
Qed.

Lemma fmt_d_no_colon (z : Z) : 0 < z -> ":"%char ∉ chars (fmt_d z).
Proof.
  intros Hz Hin. rewrite fmt_d_positive in Hin by done.
  assert (Hd : Forall is_digit (chars (pretty_N_go (Z.to_N z) "")))
    by (apply pretty_N_go_digits; constructor).
  rewrite Forall_forall in Hd. by apply (digit_not_colon _ (Hd _ Hin)).
Qed.

Lemma time_UnixNano_in_range (t : Time) :
  in_int64 t -> time_UnixNano t = t.
Proof.
  unfold in_int64, time_UnixNano, wrap64, min_int64, max_int64. intros H.
  rewrite Z.mod_small; lia.
Qed.

(** *** Keys of the history bucket *)

Lemma append_nil_l (s : string) : "" ++ s = s.
Proof. reflexivity. Qed.

Lemma append_assoc (s t u : string) : (s ++ t) ++ u = s ++ t ++ u.
Proof.
  induction s as [| c s IH]; [done |]. by rewrite !append_cons, IH.
Qed.

(** A key [id:digits] has the prefix [id':] only for [id' = id], when
    [id] has no colon. *)
Lemma colon_prefix (id id' digits : string) :
  ":"%char ∉ chars id -> ":"%char ∉ chars digits ->
  has_prefix (id' ++ ":") (id ++ ":" ++ digits) = true -> id' = id.
Proof.
  intros Hid Hd Hp. apply has_prefix_iff in Hp as [t Ht].
  rewrite append_assoc in Ht.
  revert id' Hid Ht. induction id as [| c id IH]; intros id' Hid Ht.
  - destruct id' as [| c' id']; [done |].
    rewrite ?append_cons, ?append_nil_l in Ht. injection Ht as <- ->.
    exfalso. apply Hd. rewrite chars_app, elem_of_app. right. left.
  - destruct id' as [| c' id'].
    + rewrite ?append_cons, ?append_nil_l in Ht. injection Ht as -> _.
      exfalso. apply Hid. left.
    + rewrite ?append_cons in Ht. injection Ht as -> Ht. f_equal.
      apply IH; [| done]. intros Hin. apply Hid. by right.
Qed.

Lemma has_own_prefix (id digits : string) :
  has_prefix (id ++ ":") (id ++ ":" ++ digits) = true.
Proof. apply has_prefix_iff. exists digits. symmetry. apply append_assoc. Qed.

Lemma nineteen_digits_UnixNano (t : Time) :
  nineteen_digits t -> time_UnixNano t = t /\ 0 < t.
Proof.
  intros H. unfold nineteen_digits, max_int64 in H. split; [| lia].
  apply time_UnixNano_in_range. unfold in_int64, min_int64, max_int64. lia.
Qed.

Lemma key_of_prefix (endpointID : string) (record : HealthCheckRecord.t) :
  ":"%char ∉ chars (HealthCheckRecord.EndpointID record) ->
  nineteen_digits (HealthCheckRecord.Timestamp record) ->
  has_prefix (endpointID ++ ":") (key_of record) = true
  <-> HealthCheckRecord.EndpointID record = endpointID.
Proof.
  intros Hid Hts. destruct (nineteen_digits_UnixNano _ Hts) as [Hu Hpos].
  unfold key_of. rewrite Hu. split.
  - intros Hp. symmetry. by eapply colon_prefix, Hp; [| apply fmt_d_no_colon].
  - intros <-. apply has_own_prefix.
Qed.

(** Between two records of one endpoint, the order of the keys is the
    order of the timestamps. *)
Lemma key_of_le (r1 r2 : HealthCheckRecord.t) :
  HealthCheckRecord.EndpointID r1 = HealthCheckRecord.EndpointID r2 ->
  nineteen_digits (HealthCheckRecord.Timestamp r1) ->
  nineteen_digits (HealthCheckRecord.Timestamp r2) ->
  String.le (key_of r1) (key_of r2) ->
  HealthCheckRecord.Timestamp r1 <= HealthCheckRecord.Timestamp r2.
Proof.
  intros Hid H1 H2 Hle.
  destruct (nineteen_digits_UnixNano _ H1) as [Hu1 _].
  destruct (nineteen_digits_UnixNano _ H2) as [Hu2 _].
  unfold String.le, String.leb, key_of in Hle.
  rewrite Hid, Hu1, Hu2, !compare_app, fmt_d_compare in Hle by done.
  destruct (Z.compare_spec (HealthCheckRecord.Timestamp r1)
                           (HealthCheckRecord.Timestamp r2)); [lia | lia | done].
Qed.

Lemma elem_of_decode_with_prefix {A : Type} (prefix : string)
  (c : list (string * Encoded A)) (a : A) :
  a ∈ decode_all (with_prefix prefix c)
  <-> exists k, (k, Doc a) ∈ c /\ has_prefix prefix k = true.
Proof.
  unfold decode_all, with_prefix. rewrite list_elem_of_omap. split.
  - intros ([k v] & Hin & Hdec). apply list_elem_of_filter in Hin as [Hp Hin].
    destruct v as [a' | raw]; [| done]. injection Hdec as ->. eauto.
  - intros (k & Hin & Hp). exists (k, Doc a). split; [| done].
    by apply list_elem_of_filter.
Qed.

Lemma decode_with_prefix_sorted (endpointID : string)
  (c : list (string * Encoded HealthCheckRecord.t)) :
  StronglySorted key_le c ->
  NoDup c.*1 ->
  (forall k v, (k, v) ∈ c ->
     exists record,
       v = Doc record /\ k = key_of record
       /\ (":"%char ∉ chars (HealthCheckRecord.EndpointID record))
       /\ nineteen_digits (HealthCheckRecord.Timestamp record)) ->
  StronglySorted
    (fun a b => HealthCheckRecord.Timestamp a < HealthCheckRecord.Timestamp b)
    (decode_all (with_prefix (endpointID ++ ":") c)).
Proof.
  intros Hs. induction Hs as [| [k v] c Hs IH Hall]; intros Hnd Hwf.
  - constructor.
  - apply NoDup_cons in Hnd as [Hk Hnd].
    assert (Hwf' := fun k' v' (H : (k', v') ∈ c) =>
                      Hwf k' v' (list_elem_of_further _ _ _ H)).
    specialize (IH Hnd Hwf').
    unfold with_prefix. rewrite filter_cons. cbn [fst].
    destruct (decide (has_prefix (endpointID ++ ":") k = true)) as [Hp | Hp];
      [| exact IH].
    destruct (Hwf k v) as (r & -> & -> & Hid & Hts); [left |].
    unfold decode_all. cbn [omap list_omap snd json_Unmarshal].
    apply StronglySorted_cons. split; [| exact IH].
    apply Forall_forall. intros r' Hin.
    apply elem_of_decode_with_prefix in Hin as (k' & Hin & Hp').
    destruct (Hwf' k' (Doc r') Hin) as (r'' & [= <-] & -> & Hid' & Hts').
    apply key_of_prefix in Hp, Hp'; [| done..].
    assert (Hle : HealthCheckRecord.Timestamp r
                  <= HealthCheckRecord.Timestamp r').
    { apply key_of_le; [congruence | done | done |].
      rewrite Forall_forall in Hall. apply (Hall _ Hin). }
    destruct (decide (HealthCheckRecord.Timestamp r
                      = HealthCheckRecord.Timestamp r')) as [Heq | Hne];
      [| lia].
    exfalso. apply Hk. apply list_elem_of_fmap. exists (key_of r', Doc r').
    split; [| done]. cbn. unfold key_of. congruence.
Qed.

Lemma StronglySorted_reverse {A : Type} (R : relation A) (l : list A) :
  StronglySorted R l -> StronglySorted (flip R) (reverse l).
Proof.
  induction 1 as [| x l Hs IH Hall]; [constructor |].
  rewrite reverse_cons. apply StronglySorted_app. split; [| split].
  - intros y z Hy Hz. apply list_elem_of_singleton in Hz as ->.
    rewrite elem_of_reverse in Hy. rewrite Forall_forall in Hall.
    unfold flip. by apply Hall.
  - done.
  - repeat constructor.
Qed.

Lemma StronglySorted_take {A : Type} (R : relation A) (n : nat) (l : list A) :
  StronglySorted R l -> StronglySorted R (take n l).
Proof.
  intros H. rewrite <- (take_drop n l) in H.
  by apply StronglySorted_app_1_l in H.
Qed.

(** What the query answers with no limit. *)
Lemma GetHealthHistory_unbounded (endpointID : string) (d : Database) :
  GetHealthHistory endpointID 0 d
  = reverse (decode_all (with_prefix (endpointID ++ ":")
                           (bucket_cursor (history d)))).
Proof.
  unfold GetHealthHistory. cbv zeta. change (0 <? 0) with false. cbn [andb].
  rewrite reverse_in_place_reverse, scan_prefix_seek
    by apply bucket_cursor_sorted.
  done.
Qed.

(** On a store written by [SaveHealthCheckRecord] with nineteen-digit
    timestamps, the query answers with the records of the endpoint and no
    others, most recent first, cut at a positive limit. *)
Theorem GetHealthHistory_same_width
  (endpointID : string) (limit : Z) (d : Database) :
  history_wf (history d) ->
  let records := GetHealthHistory endpointID limit d in
  (forall record, record ∈ records ->
     HealthCheckRecord.EndpointID record = endpointID
     /\ history d !! key_of record = Some (Doc record))
  /\ StronglySorted
       (fun a b =>
          HealthCheckRecord.Timestamp b < HealthCheckRecord.Timestamp a)
       records
  /\ (0 < limit -> Z.of_nat (length records) <= limit)
  /\ (limit <= 0 ->
      forall record,
        history d !! key_of record = Some (Doc record) ->
        HealthCheckRecord.EndpointID record = endpointID ->
        record ∈ records).
Proof.
  intros Hwf records.
  assert (Hmem : forall record,
             record ∈ GetHealthHistory endpointID 0 d
             <-> HealthCheckRecord.EndpointID record = endpointID
                 /\ history d !! key_of record = Some (Doc record)).
  { intros record. rewrite GetHealthHistory_unbounded, elem_of_reverse,
      elem_of_decode_with_prefix. split.
    - intros (k & Hin & Hp). apply elem_of_bucket_cursor in Hin.
      destruct (Hwf k _ Hin) as (r & [= <-] & -> & Hid & Hts).
      split; [by apply (key_of_prefix endpointID record) | done].
    - intros [Hid Hin]. exists (key_of record).
      split; [by apply elem_of_bucket_cursor |].
      destruct (Hwf _ _ Hin) as (r & [= <-] & _ & Hid' & Hts).
      by apply key_of_prefix. }
  assert (Hsorted : StronglySorted
            (fun a b =>
               HealthCheckRecord.Timestamp b < HealthCheckRecord.Timestamp a)
            (GetHealthHistory endpointID 0 d)).
  { rewrite GetHealthHistory_unbounded.
    apply (StronglySorted_reverse
             (fun a b => HealthCheckRecord.Timestamp a
                         < HealthCheckRecord.Timestamp b)).
    apply decode_with_prefix_sorted.
    - apply bucket_cursor_sorted.
    - apply bucket_cursor_NoDup.
    - intros k v Hin. apply elem_of_bucket_cursor in Hin. eauto. }
  subst records. rewrite GetHealthHistory_limit.
  destruct (Z.ltb_spec 0 limit) as [Hpos | Hneg].
  - split; [| split; [| split]].
    + intros record Hin. apply Hmem. eapply subseteq_take, Hin.
    + by apply StronglySorted_take.
    + intros _. rewrite length_take. lia.
    + lia.
  - split; [| split; [| split]].
    + intros record Hin. by apply Hmem.
    + done.
    + lia.
    + intros _ record Hin Hid. by apply Hmem.
Qed.

(** The invariant holds of the stores the monitor writes: it starts empty,
    IDs come from [generateIDWithURL], and every record is stored under
    its key. *)
Lemma history_wf_empty : history_wf ∅.
Proof. intros k v H. by rewrite lookup_empty in H. Qed.

Lemma SaveHealthCheckRecord_key_of record d d' :
  SaveHealthCheckRecord record d = inr d' ->
  history d' = <[key_of record := Doc record]> (history d).
Proof.
  unfold SaveHealthCheckRecord. cbv zeta. fold (key_of record).
  destruct (bucket_Put _ _ _) as [err | b'] eqn:Hput; [done |].
  intros [= <-]. by apply bucket_Put_inr in Hput.
Qed.

Lemma history_wf_SaveHealthCheckRecord record d d' :
  history_wf (history d) ->
  ":"%char ∉ chars (HealthCheckRecord.EndpointID record) ->
  nineteen_digits (HealthCheckRecord.Timestamp record) ->
  SaveHealthCheckRecord record d = inr d' ->
  history_wf (history d').
Proof.
  intros Hwf Hid Hts Hsave k v.
  rewrite (SaveHealthCheckRecord_key_of _ _ _ Hsave).
  intros Hk. apply lookup_insert_Some in Hk as [[<- <-] | [_ Hk]]; eauto.
Qed.

Lemma id_char_not_colon (c : ascii) : id_char c -> c <> ":"%char.
Proof. intros [H | ->] Hc; [subst c; vm_compute in H |]; discriminate. Qed.

Lemma generateIDWithURL_no_colon (name url : string) :
  ":"%char ∉ chars (generateIDWithURL name url).
Proof.
  pose proof (generateIDWithURL_id_chars name url) as Hchars.
  rewrite Forall_forall in Hchars. intros Hin.
  by apply (id_char_not_colon _ (Hchars _ Hin)).
Qed.

(** Three records of a sane clock come back most recent first, cut at the
    limit; another endpoint ID gets nothing. *)
Example GetHealthHistory_scenario :
  map HealthCheckRecord.Timestamp
      (GetHealthHistory "API-https-x" 0 three_records)
  = [demo_clock 3; demo_clock 2; demo_clock 1]
  /\ map HealthCheckRecord.Timestamp
         (GetHealthHistory "API-https-x" 2 three_records)
     = [demo_clock 3; demo_clock 2]
  /\ GetHealthHistory "API" 0 three_records = [].
Proof. vm_compute. repeat split. Qed.

Lemma history_wf_save_all records d :
  Forall (fun record =>
            (":"%char ∉ chars (HealthCheckRecord.EndpointID record))
            /\ nineteen_digits (HealthCheckRecord.Timestamp record)) records ->
  history_wf (history d) ->
  history_wf (history (save_all records d)).
Proof.
  intros Hall. revert d. unfold save_all.
  induction Hall as [| record records [Hid Hts] _ IH]; intros d Hwf; [done |].
  cbn [foldl]. apply IH.
  destruct (SaveHealthCheckRecord record d) as [err | d'] eqn:Hsave; [done |].
  by eapply history_wf_SaveHealthCheckRecord.
Qed.

(** The store of [three_records] is one of them, and the query on it is
    as [GetHealthHistory_same_width] says. *)
Example three_records_wf : history_wf (history three_records).
Proof.
  assert (Hid : ":"%char ∉ chars "API-https-x")
    by apply (generateIDWithURL_no_colon "API" "https://x").
  assert (Hts : forall n, (n < 1000)%nat -> nineteen_digits (demo_clock n)).
  { intros n Hn. unfold nineteen_digits, demo_clock, max_int64, Second. lia. }
  apply history_wf_save_all; [| apply history_wf_empty].
  repeat (apply Forall_cons; split; [split; [exact Hid | apply Hts; lia] |]).
  by apply Forall_nil.
Qed.

Example three_records_most_recent_first :
  StronglySorted
    (fun a b => HealthCheckRecord.Timestamp b < HealthCheckRecord.Timestamp a)
    (GetHealthHistory "API-https-x" 0 three_records).
Proof. apply GetHealthHistory_same_width, three_records_wf. Qed.

(** C6, on [two_widths].  The cursor yields the key of the later record
    first, because "1790000000000000000" sorts before "30000000000" as a
    string; the answer, reversed, is oldest-first. *)
Theorem GetHealthHistory_oldest_first :
  map fst (bucket_cursor (history two_widths))
  = ["API-https-x:1790000000000000000"; "API-https-x:30000000000"]
  /\ map HealthCheckRecord.Timestamp (GetHealthHistory "API-https-x" 0 two_widths)
     = [30 * Second; 1790000000 * Second].
Proof. vm_compute. split; reflexivity. Qed.

(** * Further properties *)

(** ** The handlers over whole runs *)

(** What neither handler touches, and the timestamps they set: the
    first reading of the clock is the time of the check, the second
    schedules the next one, and a third one is taken only for a recovery
    or a failure transition. *)
Lemma handle_frame s o m :
  let s' := (handle s o m).1 in
  EndpointState.ID s' = EndpointState.ID s
  /\ EndpointState.Enabled s' = EndpointState.Enabled s
  /\ EndpointState.AlertsSuppressed s' = EndpointState.AlertsSuppressed s
  /\ EndpointState.CheckInterval s' = EndpointState.CheckInterval s
  /\ EndpointState.LastCheck s' = clock m (clock_reads m)
  /\ EndpointState.NextCheck s'
     = time_Add (clock m (S (clock_reads m))) (EndpointState.CheckInterval s)
  /\ EndpointState.LastStatusChange s'
     = (if match o with
           | Success _ =>
               HealthStatus_eqb (EndpointState.Status s) StatusUnhealthy
               && HealthStatus_eqb (EndpointState.Status s') StatusHealthy
           | Failure _ _ =>
               negb (HealthStatus_eqb (EndpointState.Status s)
                                      StatusUnhealthy)
               && HealthStatus_eqb (EndpointState.Status s') StatusUnhealthy
           end
        then clock m (S (S (clock_reads m)))
        else EndpointState.LastStatusChange s)
  /\ clock (handle s o m).2 = clock m
  /\ states (handle s o m).2 = states m.
Proof.
  destruct s as [ep st lc lsc cf cs rtm le en sup id ci nc].
  destruct o as [rt | err rt]; unfold handle.
  - destruct m as [cfg sts al [d|] clk n];
      run_handler; cbn;
      destruct (Endpoint.SuccessThreshold ep <=? int_add cs 1);
      handler_cases st sup.
  - destruct m as [cfg sts al [d|] clk n];
      run_handler; cbn;
      destruct (Endpoint.FailureThreshold ep <=? int_add cf 1);
      handler_cases st sup.
Qed.

Lemma handle_Success s rt : handle s (Success rt) = handleCheckSuccess s rt.
Proof. reflexivity. Qed.

Lemma handle_Failure s err rt :
  handle s (Failure err rt) = handleCheckFailure s err rt.
Proof. reflexivity. Qed.

Lemma handle_Endpoint s o m :
  EndpointState.Endpoint (handle s o m).1 = EndpointState.Endpoint s.
Proof. by destruct (handle_Status s o m) as [H _]. Qed.

Lemma run_frame
  (state : EndpointState.t) (outcomes : list Outcome) (m : Monitor) :
  let s' := (run state outcomes m).1 in
  EndpointState.ID s' = EndpointState.ID state
  /\ EndpointState.Endpoint s' = EndpointState.Endpoint state
  /\ EndpointState.CheckInterval s' = EndpointState.CheckInterval state
  /\ EndpointState.Enabled s' = EndpointState.Enabled state
  /\ EndpointState.AlertsSuppressed s' = EndpointState.AlertsSuppressed state.
Proof.
  revert state m. induction outcomes as [| o rest IH]; intros state m.
  - by cbn.
  - rewrite run_cons. cbv zeta.
    destruct (IH (handle state o m).1 (handle state o m).2)
      as (H1 & H2 & H3 & H4 & H5).
    destruct (handle_frame state o m) as (F1 & F2 & F3 & F4 & _).
    pose proof (handle_Endpoint state o m) as F5.
    rewrite H1, H2, H3, H4, H5. by repeat split.
Qed.

(** X1.  No sequence of checks changes the identity or the settings of an
    endpoint: its ID, its definition with both thresholds, its check
    interval, and its enabled and alerts-suppressed flags. *)
Theorem run_keeps_settings
  (state : EndpointState.t) (outcomes : list Outcome) (m : Monitor) :
  let s' := (run state outcomes m).1 in
  EndpointState.ID s' = EndpointState.ID state
  /\ EndpointState.Endpoint s' = EndpointState.Endpoint state
  /\ EndpointState.CheckInterval s' = EndpointState.CheckInterval state
  /\ EndpointState.Enabled s' = EndpointState.Enabled state
  /\ EndpointState.AlertsSuppressed s' = EndpointState.AlertsSuppressed state.
Proof. apply run_frame. Qed.

(** X2.  [unknown] is only the initial status: once an endpoint is healthy or
    unhealthy, no sequence of checks makes it unknown again. *)
Theorem run_never_back_to_unknown
  (state : EndpointState.t) (outcomes : list Outcome) (m : Monitor) :
  EndpointState.Status state <> StatusUnknown ->
  EndpointState.Status (run state outcomes m).1 <> StatusUnknown.
Proof.
  revert state m. induction outcomes as [| o rest IH]; intros state m Hs.
  - done.
  - rewrite run_cons. apply IH.
    destruct (handle_Status state o m) as [_ ->].
    destruct o; case_match; done.
Qed.

Lemma run_never_back_to_unknown_witness :
  EndpointState.Status
    (run (EndpointState.set_Status StatusHealthy demo_state)
         [demo_failure; demo_failure; demo_failure; demo_success]
         demo_monitor).1 <> StatusUnknown.
Proof.
  apply (run_never_back_to_unknown
           (EndpointState.set_Status StatusHealthy demo_state)
           [demo_failure; demo_failure; demo_failure; demo_success]
           demo_monitor).
  vm_compute. discriminate.
Defined.

(** X3.  While alerts are suppressed for an endpoint, no sequence of checks
    calls the alerter. *)
Theorem run_suppressed_sends_nothing
  (state : EndpointState.t) (outcomes : list Outcome) (m : Monitor) :
  EndpointState.AlertsSuppressed state = true ->
  alerter (run state outcomes m).2 = alerter m.
Proof.
  revert state m. induction outcomes as [| o rest IH]; intros state m Hs.
  - done.
  - rewrite run_cons.
    destruct (handle_frame state o m) as (_ & _ & F3 & _).
    rewrite IH by (by rewrite F3).
    destruct o as [rt | err rt]; cbn [handle].
    + destruct (handleCheckSuccess_spec state rt m)
        as (_ & _ & _ & _ & _ & _ & -> & _).
      rewrite Hs, andb_false_r. apply app_nil_r.
    + destruct (handleCheckFailure_spec state err rt m)
        as (_ & _ & _ & _ & _ & _ & -> & _).
      rewrite Hs, andb_false_r. apply app_nil_r.
Qed.

Lemma run_suppressed_sends_nothing_witness :
  alerter (run suppressed_state [demo_failure; demo_failure; demo_failure]
               demo_monitor).2 = [].
Proof.
  apply (run_suppressed_sends_nothing suppressed_state
           [demo_failure; demo_failure; demo_failure] demo_monitor).
  reflexivity.
Defined.

(** X4.  The first time an endpoint is found healthy is not a status change
    for the monitor: going from unknown to healthy sends no alert and
    leaves the time of the last status change as it was. *)
Theorem first_healthy_is_silent
  (state : EndpointState.t) (responseTime : Duration) (m : Monitor) :
  EndpointState.Status state = StatusUnknown ->
  Endpoint.SuccessThreshold (EndpointState.Endpoint state)
  <= int_add (EndpointState.ConsecutiveSuccesses state) 1 ->
  let s' := (handleCheckSuccess state responseTime m).1 in
  let m' := (handleCheckSuccess state responseTime m).2 in
  EndpointState.Status s' = StatusHealthy
  /\ EndpointState.LastStatusChange s' = EndpointState.LastStatusChange state
  /\ alerter m' = alerter m.
Proof.
  intros Hu Hthr. cbv zeta.
  destruct (handleCheckSuccess_spec state responseTime m)
    as (_ & _ & _ & Hst & _ & _ & Hal & _).
  destruct (handle_frame state (Success responseTime) m)
    as (_ & _ & _ & _ & _ & _ & Hlsc & _).
  rewrite handle_Success in Hlsc.
  rewrite (proj2 (Z.leb_le _ _) Hthr) in Hst.
  rewrite Hu in Hal, Hlsc. rewrite Hal, Hlsc, Hst.
  split; [done |]. split; [done |]. apply app_nil_r.
Qed.

Lemma first_healthy_is_silent_witness :
  let state :=
    EndpointState.set_ConsecutiveSuccesses 1 demo_state in
  let r := handleCheckSuccess state 5 demo_monitor in
  EndpointState.Status r.1 = StatusHealthy
  /\ EndpointState.LastStatusChange r.1 = time_Zero
  /\ alerter r.2 = [].
Proof.
  intros state r.
  apply (first_healthy_is_silent state 5 demo_monitor);
    [reflexivity | vm_compute; discriminate].
Defined.

(** *** Runs, piece by piece *)

Lemma run_nil state m : run state [] m = (state, m).
Proof. reflexivity. Qed.

Lemma run_single state o m : run state [o] m = handle state o m.
Proof. rewrite run_cons, run_nil. by destruct (handle state o m). Qed.

Lemma run_app state l1 l2 m :
  run state (l1 ++ l2)%list m
  = run (run state l1 m).1 l2 (run state l1 m).2.
Proof.
  revert state m. induction l1 as [| o l1 IH]; intros state m; [done |].
  cbn [app]. by rewrite !run_cons, IH.
Qed.

(** ** The history: writing, querying, pruning *)

Lemma GetHealthHistory_elem (endpointID : string) (d : Database)
  (record : HealthCheckRecord.t) :
  record ∈ GetHealthHistory endpointID 0 d
  <-> exists k, history d !! k = Some (Doc record)
                /\ has_prefix (endpointID ++ ":") k = true.
Proof.
  rewrite GetHealthHistory_unbounded, elem_of_reverse,
    elem_of_decode_with_prefix.
  by setoid_rewrite elem_of_bucket_cursor.
Qed.

Lemma GetHealthHistory_elem_limit (endpointID : string) (limit : Z)
  (d : Database) (record : HealthCheckRecord.t) :
  record ∈ GetHealthHistory endpointID limit d ->
  record ∈ GetHealthHistory endpointID 0 d.
Proof.
  rewrite GetHealthHistory_limit. destruct (0 <? limit); [| done].
  apply subseteq_take.
Qed.

Lemma key_of_length (record : HealthCheckRecord.t) : key_of record <> "".
Proof.
  unfold key_of. intros H. apply (f_equal chars) in H.
  rewrite !chars_app in H. by destruct (chars _).
Qed.

Lemma bucket_Put_ok {V : Type} (k : string) (v : V) (b : Bucket V) :
  k <> "" -> Z.of_nat (String.length k) <= MaxKeySize ->
  bucket_Put k v b = inr (<[k := v]> b).
Proof.
  intros Hk Hlen. unfold bucket_Put. rewrite decide_False by done.
  by rewrite (proj2 (Z.ltb_ge _ _)) by lia.
Qed.

Lemma SaveHealthCheckRecord_ok record d :
  Z.of_nat (String.length (key_of record)) <= MaxKeySize ->
  SaveHealthCheckRecord record d
  = inr (set_history (<[key_of record := Doc record]> (history d)) d).
Proof.
  intros Hlen. unfold SaveHealthCheckRecord. cbv zeta. fold (key_of record).
  by rewrite bucket_Put_ok by (done || apply key_of_length).
Qed.

(** X5.  A record that is saved is found by the query for its endpoint; the
    write succeeds whenever the key is not longer than bbolt allows, and
    it leaves the stored endpoints alone. *)
Theorem saved_record_is_queried
  (record : HealthCheckRecord.t) (d : Database) :
  Z.of_nat (String.length (key_of record)) <= MaxKeySize ->
  exists d',
    SaveHealthCheckRecord record d = inr d'
    /\ record ∈ GetHealthHistory (HealthCheckRecord.EndpointID record) 0 d'
    /\ endpoints d' = endpoints d.
Proof.
  intros Hlen. eexists. split; [by apply SaveHealthCheckRecord_ok |].
  split; [| done]. apply GetHealthHistory_elem. exists (key_of record).
  split; [apply lookup_insert_eq | apply has_own_prefix].
Qed.

Lemma saved_record_is_queried_witness :
  exists d',
    SaveHealthCheckRecord (record_at (demo_clock 1)) three_records = inr d'
    /\ record_at (demo_clock 1) ∈ GetHealthHistory "API-https-x" 0 d'
    /\ endpoints d' = endpoints three_records.
Proof.
  apply (saved_record_is_queried (record_at (demo_clock 1)) three_records).
  vm_compute. discriminate.
Defined.

(** X6.  Every check is in the history right after it: the record of the
    state the check leaves, with the time of the check, the new status
    and the error of the check, is found by the query for the endpoint. *)
Theorem check_is_recorded
  (state : EndpointState.t) (o : Outcome) (m : Monitor) (d : Database) :
  db m = Some d ->
  Z.of_nat (String.length
              (EndpointState.ID state ++ ":"
               ++ fmt_d (time_UnixNano (clock m (clock_reads m)))))
  <= MaxKeySize ->
  let s' := (handle state o m).1 in
  let record := record_of s' (EndpointState.LastError s') in
  HealthCheckRecord.Timestamp record = clock m (clock_reads m)
  /\ HealthCheckRecord.Status record
     = HealthStatus_string (EndpointState.Status s')
  /\ exists d',
       db (handle state o m).2 = Some d'
       /\ record ∈ GetHealthHistory (EndpointState.ID state) 0 d'.
Proof.
  intros Hdb Hlen s' record.
  destruct (handle_frame state o m) as (Hid & _ & _ & _ & Hlc & _).
  fold s' in Hid, Hlc.
  assert (Hsave : db (handle state o m).2
                  = db_after_save record (db m)).
  { subst record s'. destruct o as [rt | err rt]; cbn [handle].
    - destruct (handleCheckSuccess_spec state rt m)
        as (_ & _ & _ & _ & _ & -> & _ & ->). done.
    - destruct (handleCheckFailure_spec state err rt m)
        as (_ & _ & _ & _ & _ & -> & _ & ->). done. }
  split; [exact Hlc |]. split; [done |].
  assert (Hkey : key_of record
                 = EndpointState.ID state ++ ":"
                   ++ fmt_d (time_UnixNano (clock m (clock_reads m)))).
  { unfold key_of, record, record_of. cbn. by rewrite Hid, Hlc. }
  rewrite Hsave, Hdb. unfold db_after_save.
  rewrite SaveHealthCheckRecord_ok by (by rewrite Hkey).
  eexists. split; [done |].
  apply GetHealthHistory_elem. exists (key_of record).
  split; [apply lookup_insert_eq |].
  rewrite Hkey. apply has_own_prefix.
Qed.

Lemma check_is_recorded_witness :
  let s' := (handle demo_state demo_failure demo_monitor).1 in
  let record := record_of s' (EndpointState.LastError s') in
  HealthCheckRecord.Timestamp record = demo_clock 0
  /\ HealthCheckRecord.Status record
     = HealthStatus_string (EndpointState.Status s')
  /\ exists d',
       db (handle demo_state demo_failure demo_monitor).2 = Some d'
       /\ record ∈ GetHealthHistory "API-https-x" 0 d'.
Proof.
  apply (check_is_recorded demo_state demo_failure demo_monitor
           (mkDatabase ∅ ∅)); [reflexivity | vm_compute; discriminate].
Defined.

(** ** The store of endpoints *)

Lemma SaveEndpoint_ID now endpoint d :
  StoredEndpoint.ID (SaveEndpoint now endpoint d).1 = StoredEndpoint.ID endpoint.
Proof.
  unfold SaveEndpoint. cbv zeta.
  match goal with
  | |- context [bucket_Put ?k ?v ?b] => by destruct (bucket_Put k v b)
  end.
Qed.

Lemma SaveEndpoint_ok now endpoint d :
  StoredEndpoint.ID endpoint <> "" ->
  Z.of_nat (String.length (StoredEndpoint.ID endpoint)) <= MaxKeySize ->
  (SaveEndpoint now endpoint d).2
  = inr (set_endpoints
           (<[StoredEndpoint.ID endpoint
              := Doc (SaveEndpoint now endpoint d).1]> (endpoints d)) d).
Proof.
  intros Hid Hlen. unfold SaveEndpoint. cbv zeta. cbn [StoredEndpoint.ID].
  by rewrite !bucket_Put_ok.
Qed.

Lemma GetEndpoint_Doc id d endpoint :
  endpoints d !! id = Some (Doc endpoint) -> GetEndpoint id d = inr endpoint.
Proof. intros H. unfold GetEndpoint, bucket_Get. by rewrite H. Qed.

Lemma GetEndpoint_None id d :
  endpoints d !! id = None ->
  GetEndpoint id d = inl ("endpoint not found: " ++ id).
Proof. intros H. unfold GetEndpoint, bucket_Get. by rewrite H. Qed.

(** X7.  An endpoint that is saved is read back as [SaveEndpoint] left it, with
    the defaults filled in; the write succeeds for every ID that is not
    empty and not longer than bbolt allows, and touches neither the other
    endpoints nor the history. *)
Theorem SaveEndpoint_then_GetEndpoint
  (now : Time) (endpoint : StoredEndpoint.t) (d : Database) :
  StoredEndpoint.ID endpoint <> "" ->
  Z.of_nat (String.length (StoredEndpoint.ID endpoint)) <= MaxKeySize ->
  exists d',
    (SaveEndpoint now endpoint d).2 = inr d'
    /\ GetEndpoint (StoredEndpoint.ID endpoint) d'
       = inr (SaveEndpoint now endpoint d).1
    /\ (forall id, id <> StoredEndpoint.ID endpoint ->
          GetEndpoint id d' = GetEndpoint id d)
    /\ history d' = history d.
Proof.
  intros Hid Hlen. eexists. split; [by apply SaveEndpoint_ok |].
  split; [| split; [| done]].
  - apply GetEndpoint_Doc. cbn. apply lookup_insert_eq.
  - intros id Hne. unfold GetEndpoint, bucket_Get. cbn.
    by rewrite lookup_insert_ne.
Qed.

Lemma SaveEndpoint_then_GetEndpoint_witness :
  exists d',
    (SaveEndpoint (demo_clock 5) stored_api (mkDatabase ∅ ∅)).2 = inr d'
    /\ GetEndpoint "API-https-x" d'
       = inr (SaveEndpoint (demo_clock 5) stored_api (mkDatabase ∅ ∅)).1
    /\ (forall id, id <> "API-https-x" ->
          GetEndpoint id d' = GetEndpoint id (mkDatabase ∅ ∅))
    /\ history d' = ∅.
Proof.
  apply (SaveEndpoint_then_GetEndpoint (demo_clock 5) stored_api
           (mkDatabase ∅ ∅)); [discriminate | vm_compute; discriminate].
Defined.

(** ** Removing an endpoint *)

(** X8.  Deleting an endpoint through the API answers with a success whether
    or not the endpoint exists.  Afterwards the endpoint is neither stored
    nor monitored, while the records of its checks stay in the store:
    every history query answers as before. *)
Theorem handleDeleteEndpoint_leaves_history
  (r : ActionRequest) (m : Monitor) (d : Database) :
  action_Method r = "POST" \/ action_Method r = "DELETE" ->
  request_id r <> "" ->
  db m = Some d ->
  exists d',
    (handleDeleteEndpoint r m).1 = Some (reply_Success "Endpoint deleted")
    /\ db (handleDeleteEndpoint r m).2 = Some d'
    /\ GetEndpoint (request_id r) d'
       = inl ("endpoint not found: " ++ request_id r)
    /\ states (handleDeleteEndpoint r m).2 !! request_id r = None
    /\ (forall id, id <> request_id r ->
          GetEndpoint id d' = GetEndpoint id d
          /\ states (handleDeleteEndpoint r m).2 !! id = states m !! id)
    /\ (forall id limit,
          GetHealthHistory id limit d' = GetHealthHistory id limit d).
Proof.
  intros Hmethod Hid Hdb.
  exists (set_endpoints (delete (request_id r) (endpoints d)) d).
  assert (Hrun : handleDeleteEndpoint r m
                 = (Some (reply_Success "Endpoint deleted"),
                    set_states (delete (request_id r) (states m))
                      (set_db (Some (set_endpoints
                                       (delete (request_id r) (endpoints d))
                                       d)) m))).
  { unfold handleDeleteEndpoint. cbv zeta.
    replace (negb (bool_decide (action_Method r = "POST"))
             && negb (bool_decide (action_Method r = "DELETE")))
      with false
      by (destruct Hmethod as [-> | ->]; reflexivity).
    rewrite (bool_decide_eq_false_2 (request_id r = "")) by done.
    unfold RemoveEndpoint. rewrite Hdb. reflexivity. }
  rewrite Hrun. cbn [fst snd]. split; [done |]. split; [done |].
  split; [| split; [| split]].
  - apply GetEndpoint_None. cbn. apply lookup_delete_eq.
  - cbn. apply lookup_delete_eq.
  - intros id Hne. split.
    + unfold GetEndpoint, bucket_Get. cbn. by rewrite lookup_delete_ne.
    + cbn. by rewrite lookup_delete_ne.
  - reflexivity.
Qed.

Lemma handleDeleteEndpoint_leaves_history_witness :
  exists d',
    (handleDeleteEndpoint (mkActionRequest "DELETE" "API-https-x" (inl "EOF"))
                          api_monitor).1
    = Some (reply_Success "Endpoint deleted")
    /\ db (handleDeleteEndpoint
             (mkActionRequest "DELETE" "API-https-x" (inl "EOF"))
             api_monitor).2 = Some d'
    /\ GetEndpoint "API-https-x" d' = inl "endpoint not found: API-https-x"
    /\ length (GetHealthHistory "API-https-x" 0 d') = 3%nat.
Proof.
  destruct (handleDeleteEndpoint_leaves_history
              (mkActionRequest "DELETE" "API-https-x" (inl "EOF"))
              api_monitor api_store)
    as (d' & H1 & H2 & H3 & _ & _ & H6);
    [by right | discriminate | reflexivity |].
  exists d'. split; [exact H1 |]. split; [exact H2 |]. split; [exact H3 |].
  rewrite H6. vm_compute. reflexivity.
Defined.

(** ** Enabling, disabling, suppressing *)

(** X9.  For an ID that is not stored, each of the four actions answers 500
    with the error of [GetEndpoint], and changes nothing: the clock is not
    even read. *)
Theorem handleEndpointAction_unknown_endpoint
  (r : ActionRequest) (action : string -> M (option (option error)))
  (actionName : string) (m : Monitor) (d : Database) :
  action ∈ [Monitor.EnableEndpoint; Monitor.DisableEndpoint;
            Monitor.SuppressAlerts; Monitor.UnsuppressAlerts] ->
  action_Method r = "POST" ->
  request_id r <> "" ->
  db m = Some d ->
  endpoints d !! request_id r = None ->
  handleEndpointAction r action actionName m
  = (Some (reply_Error ("endpoint not found: " ++ request_id r)
                       StatusInternalServerError), m).
Proof.
  intros Haction Hmethod Hid Hdb Hnone.
  assert (Hact : action (request_id r) m
                 = (Some (Some ("endpoint not found: " ++ request_id r)), m)).
  { destruct m as [cfg sts al dbo clk n]. cbn in Hdb. subst dbo.
    repeat (apply elem_of_cons in Haction as [-> | Haction]);
      [| | | | by apply elem_of_nil in Haction];
      unfold Monitor.EnableEndpoint, Monitor.DisableEndpoint,
        Monitor.SuppressAlerts, Monitor.UnsuppressAlerts,
        Database.EnableEndpoint, Database.DisableEndpoint,
        Database.SuppressAlerts, Database.UnsuppressAlerts;
      cbn [db clock clock_reads];
      by rewrite (GetEndpoint_None _ _ Hnone). }
  unfold handleEndpointAction. cbv zeta.
  rewrite Hmethod. cbn [negb].
  rewrite (bool_decide_eq_true_2 ("POST" = "POST")) by done. cbn [negb].
  rewrite (bool_decide_eq_false_2 (request_id r = "")) by done.
  by rewrite Hact.
Qed.

Lemma handleEndpointAction_unknown_endpoint_witness :
  handleDisableEndpoint (mkActionRequest "POST" "no-such-endpoint" (inl "EOF"))
                        api_monitor
  = (Some (reply_Error "endpoint not found: no-such-endpoint"
                       StatusInternalServerError), api_monitor).
Proof.
  apply (handleEndpointAction_unknown_endpoint
           (mkActionRequest "POST" "no-such-endpoint" (inl "EOF"))
           Monitor.DisableEndpoint "disabled" api_monitor api_store).
  - right. left.
  - reflexivity.
  - discriminate.
  - reflexivity.
  - vm_compute. reflexivity.
Defined.

(** ** The overall health *)

Lemma allHealthy_false (l : list (string * EndpointState.t)) :
  foldl (fun allHealthy kv =>
           if HealthStatus_eqb (EndpointState.Status kv.2) StatusUnhealthy
           then false else allHealthy) false l = false.
Proof. induction l as [| kv l IH]; [done |]. cbn. by destruct (HealthStatus_eqb _ _). Qed.

Lemma allHealthy_true (l : list (string * EndpointState.t)) :
  foldl (fun allHealthy kv =>
           if HealthStatus_eqb (EndpointState.Status kv.2) StatusUnhealthy
           then false else allHealthy) true l = true
  <-> forall kv, kv ∈ l -> EndpointState.Status kv.2 <> StatusUnhealthy.
Proof.
  induction l as [| kv l IH]; cbn.
  - split; [| done]. intros _ kv H. by apply elem_of_nil in H.
  - destruct (HealthStatus_eqb _ _) eqn:Hkv.
    + rewrite allHealthy_false. split; [done |]. intros H.
      apply HealthStatus_eqb_eq in Hkv. by destruct (H kv); [left |].
    + rewrite IH. split.
      * intros H kv' Hin. apply elem_of_cons in Hin as [-> | Hin]; [| auto].
        intros Heq. apply HealthStatus_eqb_eq in Heq. congruence.
      * intros H kv' Hin. apply H. by right.
Qed.

(** X10.  The health endpoint answers 503 exactly when some endpoint the
    monitor holds is unhealthy, enabled or not, and 200 otherwise: an
    endpoint that is still unknown counts as healthy.  It reads the clock
    once and changes nothing else. *)
Theorem handleHealth_unhealthy_iff (m : Monitor) :
  let r := (handleHealth m).1 in
  let m' := (handleHealth m).2 in
  (r = reply_Health "unhealthy" (clock m (clock_reads m))
                    StatusServiceUnavailable
   \/ r = reply_Health "healthy" (clock m (clock_reads m)) StatusOK)
  /\ (reply_code r = StatusServiceUnavailable
      <-> exists id state,
            states m !! id = Some state
            /\ EndpointState.Status state = StatusUnhealthy)
  /\ m' = tick 1 m.
Proof.
  cbv zeta. unfold handleHealth, GetStatus. cbv zeta. rewrite time_Now_eq.
  pose proof (allHealthy_true (map_to_list (states m))) as Hall.
  destruct (foldl _ true (map_to_list (states m))); cbn [negb fst snd].
  - split; [by right |]. split; [| done]. split; [done |].
    intros (id & state & Hid & Hst). exfalso.
    by apply (proj1 Hall eq_refl (id, state)); [apply elem_of_map_to_list |].
  - split; [by left |]. split; [| done]. split; [| done]. intros _.
    destruct (decide (Exists
                (fun kv => EndpointState.Status kv.2 = StatusUnhealthy)
                (map_to_list (states m)))) as [Hex | Hnex].
    + apply Exists_exists in Hex as ([id state] & Hin & Hst).
      exists id, state. by apply elem_of_map_to_list in Hin.
    + assert (true = false); [| done]. symmetry. apply Hall.
      intros kv Hin Hst. apply Hnex, Exists_exists. eauto.
Qed.

(** ** Migration from the configuration file *)

(** X11.  Migration never overwrites: an endpoint that is stored when the
    migration starts is stored unchanged when it ends, whatever the
    configuration file lists and whether or not the migration fails; the
    history is left alone. *)
Theorem MigrateFromConfig_keeps_existing
  (clock : nat -> Time) (reads : nat) (configured : list Endpoint.t)
  (d : Database) (id : string) (existing : StoredEndpoint.t) :
  endpoints d !! id = Some (Doc existing) ->
  let d' := (MigrateFromConfig clock reads configured d).1.2 in
  endpoints d' !! id = Some (Doc existing) /\ history d' = history d.
Proof.
  cbv zeta. revert reads d.
  induction configured as [| ep rest IH]; intros reads d Hid; [done |].
  cbn [MigrateFromConfig]. cbv zeta. cbn [StoredEndpoint.ID].
  set (key := generateIDWithURL (Endpoint.Name ep) (Endpoint.URL ep)).
  destruct (GetEndpoint key d) as [err | found] eqn:Hget; [| by apply IH].
  match goal with
  | |- context [SaveEndpoint ?now ?stored d] =>
      pose proof (SaveEndpoint_ID now stored d) as Hkey;
      destruct (SaveEndpoint now stored d) as [saved [err' | d1]] eqn:Hsave
  end; cbn [fst snd] in *; [done |].
  assert (Hd1 : exists v, d1 = set_endpoints (<[key := v]> (endpoints d)) d).
  { unfold SaveEndpoint in Hsave. cbv zeta in Hsave.
    cbn [StoredEndpoint.ID] in Hsave. fold key in Hsave.
    match type of Hsave with
    | context [bucket_Put key ?v ?b] =>
        destruct (bucket_Put key v b) as [e | b'] eqn:Hput;
        [done | apply bucket_Put_inr in Hput as ->; exists v]
    end. by injection Hsave as _ <-. }
  destruct Hd1 as (v & ->).
  assert (Hne : key <> id).
  { intros ->. by rewrite (GetEndpoint_Doc _ _ _ Hid) in Hget. }
  destruct (IH (S reads) (set_endpoints (<[key := v]> (endpoints d)) d))
    as [H1 H2]; [cbn; by rewrite lookup_insert_ne |].
  by split.
Qed.

Lemma MigrateFromConfig_keeps_existing_witness :
  let d' := (MigrateFromConfig demo_clock 0
               [demo_endpoint;
                Endpoint.mk "Web" "https://y" "GET" (10 * Second) 200 ∅ 3 2]
               api_store).1.2 in
  endpoints d' !! "API-https-x" = Some (Doc stored_api)
  /\ history d' = history api_store.
Proof.
  apply (MigrateFromConfig_keeps_existing demo_clock 0
           [demo_endpoint;
            Endpoint.mk "Web" "https://y" "GET" (10 * Second) 200 ∅ 3 2]
           api_store "API-https-x" stored_api).
  vm_compute. reflexivity.
Defined.

(** ** Flags in the store and in the monitor *)

Lemma store_wf_empty : store_wf ∅.
Proof. intros k v H. by rewrite lookup_empty in H. Qed.

Lemma store_wf_singleton (endpoint : StoredEndpoint.t) :
  StoredEndpoint.ID endpoint <> "" ->
  Z.of_nat (String.length (StoredEndpoint.ID endpoint)) <= MaxKeySize ->
  store_wf {[ StoredEndpoint.ID endpoint := Doc endpoint ]}.
Proof.
  intros Hid Hlen k v Hk. apply lookup_singleton_Some in Hk as [<- <-].
  by exists endpoint.
Qed.






(** ** Loading the endpoints *)

Lemma unmarshal_each_elem c acc l :
  unmarshal_each c acc = inr l ->
  forall ep, ep ∈ l <-> ep ∈ acc \/ exists k, (k, Doc ep) ∈ c.
Proof.
  revert acc. induction c as [| [k v] c IH]; intros acc; cbn.
  - intros [= <-] ep. split; [auto |].
    intros [H | (k & H)]; [done | by apply elem_of_nil in H].
  - destruct v as [ep' | raw]; cbn; [| done].
    intros Hl ep. rewrite (IH _ Hl), elem_of_app, list_elem_of_singleton.
    split.
    + intros [[H | ->] | (k' & H)]; [auto | |].
      * right. exists k. left.
      * right. exists k'. by right.
    + intros [H | (k' & H)]; [auto |].
      apply elem_of_cons in H as [[= -> ->] | H]; [auto |].
      right. eauto.
Qed.

Lemma load_states_frame eps m :
  let m' := (load_states eps m).2 in
  db m' = db m /\ alerter m' = alerter m
  /\ (forall id, id ∉ map StoredEndpoint.ID eps ->
        states m' !! id = states m !! id)
  /\ (forall id, fresh_at id m -> fresh_at id m')
  /\ (forall stored, stored ∈ eps -> fresh_at (StoredEndpoint.ID stored) m').
Proof.
  cbv zeta. revert m. induction eps as [| stored rest IH]; intros m.
  - cbn. repeat split; try done. intros stored H. by apply elem_of_nil in H.
  - cbn [load_states]. cbv zeta. rewrite !time_Now_eq. cbv zeta.
    match goal with
    | |- context [load_states rest ?m1] =>
        set (mid := m1); destruct (IH mid) as (H1 & H2 & H3 & H4 & H5)
    end.
    assert (Hnew : fresh_at (StoredEndpoint.ID stored) mid).
    { eexists. split; [apply lookup_insert_eq |]. by repeat split. }
    rewrite H1, H2. split; [by destruct m |]. split; [by destruct m |].
    split; [| split].
    + intros id Hnin. rewrite H3.
      * subst mid. cbn. rewrite lookup_insert_ne; [by destruct m |].
        intros <-. apply Hnin. cbn. left.
      * intros Hin. apply Hnin. cbn. by right.
    + intros id (state & Hst & Hfresh). apply H4.
      destruct (decide (id = StoredEndpoint.ID stored)) as [-> | Hne];
        [done |].
      exists state. split; [| done]. subst mid. cbn.
      rewrite lookup_insert_ne by done. by destruct m.
    + intros stored' Hin. apply elem_of_cons in Hin as [-> | Hin]; auto.
Qed.

(** X14.  Loading (at start, and on every reload) gives each stored endpoint a
    state that is as new: status unknown, counters zero, whatever the
    monitor knew about it before.  A state whose endpoint is not stored
    (any more) is kept as it is.  The store and the alerts sent are not
    touched. *)
Theorem loadEndpointsFromDB_starts_afresh (m : Monitor) (d : Database) :
  db m = Some d ->
  decodable (endpoints d) ->
  let m' := (ReloadEndpoints m).2 in
  (forall k stored,
      endpoints d !! k = Some (Doc stored) ->
      fresh_at (StoredEndpoint.ID stored) m')
  /\ (forall id,
        (forall k stored,
            endpoints d !! k = Some (Doc stored) ->
            StoredEndpoint.ID stored <> id) ->
        states m' !! id = states m !! id)
  /\ db m' = db m
  /\ alerter m' = alerter m.
Proof.
  intros Hdb Hdec. cbv zeta.
  unfold ReloadEndpoints, loadEndpointsFromDB, GetAllEndpoints. rewrite Hdb.
  destruct (unmarshal_each_decodable (bucket_cursor (endpoints d)) [])
    as (eps & Heq & _).
  { intros k v Hin. apply elem_of_bucket_cursor in Hin. eauto. }
  rewrite Heq. cbn [app].
  pose proof (unmarshal_each_elem _ _ _ Heq) as Helem. cbn [app] in Helem.
  destruct (load_states_frame eps m) as (H1 & H2 & H3 & _ & H5).
  destruct (load_states eps m) as [[] m'] eqn:Hload. cbn [fst snd] in *.
  split; [| split; [| split; [congruence | done]]].
  - intros k stored Hk. apply H5, Helem. right. exists k.
    by apply elem_of_bucket_cursor.
  - intros id Hid. apply H3. intros Hin.
    apply list_elem_of_fmap in Hin as (stored & -> & Hin).
    apply Helem in Hin as [Hin | (k & Hin)]; [by apply elem_of_nil in Hin |].
    apply elem_of_bucket_cursor in Hin. by apply (Hid k stored).
Qed.

Lemma loadEndpointsFromDB_starts_afresh_witness :
  EndpointState.Status <$> states failing_monitor !! "API-https-x"
  = Some StatusUnhealthy
  /\ fresh_at "API-https-x" (ReloadEndpoints failing_monitor).2.
Proof.
  split; [vm_compute; reflexivity |].
  destruct (loadEndpointsFromDB_starts_afresh failing_monitor api_store)
    as (H & _).
  - reflexivity.
  - intros k v Hk. cbn in Hk.
    apply lookup_singleton_Some in Hk as [_ <-]. by eexists.
  - apply (H "API-https-x" stored_api). reflexivity.
Defined.

(** ** Updating the settings of an endpoint *)

Lemma SaveEndpoint_saved now endpoint d :
  (SaveEndpoint now endpoint d).1
  = StoredEndpoint.mk
      (StoredEndpoint.ID endpoint) (StoredEndpoint.Name endpoint)
      (StoredEndpoint.URL endpoint)
      (if decide (StoredEndpoint.Method endpoint = "") then "GET"
       else StoredEndpoint.Method endpoint)
      (if StoredEndpoint.Timeout endpoint =? 0 then 10 * Second
       else StoredEndpoint.Timeout endpoint)
      (if StoredEndpoint.CheckInterval endpoint =? 0 then 30 * Second
       else StoredEndpoint.CheckInterval endpoint)
      (if StoredEndpoint.ExpectedStatus endpoint =? 0 then 200
       else StoredEndpoint.ExpectedStatus endpoint)
      (StoredEndpoint.Headers endpoint)
      (if StoredEndpoint.FailureThreshold endpoint =? 0 then 3
       else StoredEndpoint.FailureThreshold endpoint)
      (if StoredEndpoint.SuccessThreshold endpoint =? 0 then 2
       else StoredEndpoint.SuccessThreshold endpoint)
      (StoredEndpoint.Enabled endpoint)
      (StoredEndpoint.AlertsSuppressed endpoint)
      (if time_IsZero (StoredEndpoint.CreatedAt endpoint) then now
       else StoredEndpoint.CreatedAt endpoint)
      now.
Proof.
  unfold SaveEndpoint. cbv zeta.
  match goal with
  | |- context [bucket_Put ?k ?v ?b] => by destruct (bucket_Put k v b)
  end.
Qed.

(** X15.  An update for an ID that is not stored answers 404 and changes
    nothing; the message carries the error of [GetEndpoint] after the
    handler's own words. *)
Theorem handleUpdateEndpoint_unknown_endpoint
  (time_ParseDuration : string -> error + Duration)
  (req : UpdateRequest.t) (m : Monitor) (d : Database) :
  UpdateRequest.ID req <> "" ->
  db m = Some d ->
  endpoints d !! UpdateRequest.ID req = None ->
  handleUpdateEndpoint time_ParseDuration "POST" (inr req) m
  = (Some (reply_Error
             ("Endpoint not found: "
              ++ ("endpoint not found: " ++ UpdateRequest.ID req))
             StatusNotFound), m).
Proof.
  intros Hid Hdb Hnone. unfold handleUpdateEndpoint.
  rewrite (bool_decide_eq_true_2 ("POST" = "POST")) by done. cbn [negb].
  rewrite (bool_decide_eq_false_2 (UpdateRequest.ID req = "")) by done.
  by rewrite Hdb, (GetEndpoint_None _ _ Hnone).
Qed.

Lemma handleUpdateEndpoint_unknown_endpoint_witness :
  handleUpdateEndpoint no_duration "POST"
    (inr (UpdateRequest.mk "no-such-endpoint" "" "" 5 0)) api_monitor
  = (Some (reply_Error
             "Endpoint not found: endpoint not found: no-such-endpoint"
             StatusNotFound), api_monitor).
Proof.
  apply (handleUpdateEndpoint_unknown_endpoint no_duration
           (UpdateRequest.mk "no-such-endpoint" "" "" 5 0) api_monitor
           api_store); [discriminate | reflexivity | vm_compute; reflexivity].
Defined.

(** The tail of a successful update, for the endpoint [E] the handler has
    built from the stored one. *)
Lemma update_tail (E : StoredEndpoint.t) (id : string) (m : Monitor)
  (d : Database) :
  StoredEndpoint.ID E = id -> id <> "" ->
  Z.of_nat (String.length id) <= MaxKeySize ->
  let now := clock m (clock_reads m) in
  let saved := (SaveEndpoint now E d).1 in
  let d' := set_endpoints (<[id := Doc saved]> (endpoints d)) d in
  let m1 := set_db (Some d') (tick 1 m) in
  (let (now, m) := time_Now m in
   match SaveEndpoint now E d with
   | (_, inl err) => (Some (reply_Error err StatusInternalServerError), m)
   | (endpoint, inr d') =>
       let m := set_db (Some d') m in
       let (_, m) := Monitor.UpdateEndpointSettings id endpoint m in
       (Some (reply_Updated endpoint), m)
   end)
  = (Some (reply_Updated saved),
     (Monitor.UpdateEndpointSettings id saved m1).2).
Proof.
  intros Hid Hne Hlen. cbv zeta. rewrite time_Now_eq.
  pose proof (SaveEndpoint_ok (clock m (clock_reads m)) E d) as Hok.
  rewrite Hid in Hok. specialize (Hok Hne Hlen).
  destruct (SaveEndpoint (clock m (clock_reads m)) E d) as [saved [e | d']];
    cbn [fst snd] in *; [done |].
  injection Hok as ->.
  by destruct (Monitor.UpdateEndpointSettings id saved _).
Qed.

Lemma UpdateEndpointSettings_spec id stored m :
  let m' := (Monitor.UpdateEndpointSettings id stored m).2 in
  db m' = db m /\ alerter m' = alerter m
  /\ (forall id', id' <> id -> states m' !! id' = states m !! id')
  /\ (states m !! id = None -> states m' !! id = None)
  /\ (forall state, states m !! id = Some state ->
        exists state',
          states m' !! id = Some state'
          /\ Endpoint.Timeout (EndpointState.Endpoint state')
             = StoredEndpoint.Timeout stored
          /\ Endpoint.FailureThreshold (EndpointState.Endpoint state')
             = StoredEndpoint.FailureThreshold stored
          /\ Endpoint.SuccessThreshold (EndpointState.Endpoint state')
             = StoredEndpoint.SuccessThreshold stored
          /\ EndpointState.CheckInterval state'
             = StoredEndpoint.CheckInterval stored
          /\ EndpointState.Status state' = EndpointState.Status state
          /\ EndpointState.ConsecutiveFailures state'
             = EndpointState.ConsecutiveFailures state
          /\ EndpointState.ConsecutiveSuccesses state'
             = EndpointState.ConsecutiveSuccesses state
          /\ EndpointState.NextCheck state' = EndpointState.NextCheck state).
Proof.
  cbv zeta. unfold Monitor.UpdateEndpointSettings.
  destruct (states m !! id) as [state |] eqn:Hst; cbn [snd].
  - split; [by destruct m |]. split; [by destruct m |].
    split; [| split; [done |]].
    + intros id' Hne. destruct m; cbn in *. by rewrite lookup_insert_ne.
    + intros ? [= <-]. eexists. split.
      * destruct m; cbn. apply lookup_insert_eq.
      * by repeat split.
  - by repeat split.
Qed.

(** X16.  A successful update leaves the store and the monitor in agreement:
    the endpoint of the answer is the one now stored, with a positive
    threshold of the request taken over, and the runtime state of the
    endpoint has its timeout, both thresholds and its check interval;
    the status, the counters and the time of the next check are as they
    were, so that a new interval applies from the next check on.  No
    other state changes, and the history is left alone. *)
Theorem handleUpdateEndpoint_updates_both
  (time_ParseDuration : string -> error + Duration)
  (req : UpdateRequest.t) (m : Monitor) (d : Database)
  (updated : StoredEndpoint.t) :
  db m = Some d ->
  store_wf (endpoints d) ->
  (handleUpdateEndpoint time_ParseDuration "POST" (inr req) m).1
  = Some (reply_Updated updated) ->
  let m' := (handleUpdateEndpoint time_ParseDuration "POST" (inr req) m).2 in
  let id := UpdateRequest.ID req in
  (exists d',
      db m' = Some d'
      /\ GetEndpoint id d' = inr updated
      /\ history d' = history d)
  /\ (0 < UpdateRequest.FailureThreshold req ->
      StoredEndpoint.FailureThreshold updated
      = UpdateRequest.FailureThreshold req)
  /\ (0 < UpdateRequest.SuccessThreshold req ->
      StoredEndpoint.SuccessThreshold updated
      = UpdateRequest.SuccessThreshold req)
  /\ (forall state,
        states m !! id = Some state ->
        exists state',
          states m' !! id = Some state'
          /\ Endpoint.Timeout (EndpointState.Endpoint state')
             = StoredEndpoint.Timeout updated
          /\ Endpoint.FailureThreshold (EndpointState.Endpoint state')
             = StoredEndpoint.FailureThreshold updated
          /\ Endpoint.SuccessThreshold (EndpointState.Endpoint state')
             = StoredEndpoint.SuccessThreshold updated
          /\ EndpointState.CheckInterval state'
             = StoredEndpoint.CheckInterval updated
          /\ EndpointState.Status state' = EndpointState.Status state
          /\ EndpointState.ConsecutiveFailures state'
             = EndpointState.ConsecutiveFailures state
          /\ EndpointState.ConsecutiveSuccesses state'
             = EndpointState.ConsecutiveSuccesses state
          /\ EndpointState.NextCheck state' = EndpointState.NextCheck state)
  /\ (forall id', id' <> id -> states m' !! id' = states m !! id')
  /\ alerter m' = alerter m.
Proof.
  intros Hdb Hwf. cbv zeta.
  assert (Hrun : (exists E,
    StoredEndpoint.ID E = UpdateRequest.ID req
    /\ (0 < UpdateRequest.FailureThreshold req ->
        StoredEndpoint.FailureThreshold E
        = UpdateRequest.FailureThreshold req)
    /\ (0 < UpdateRequest.SuccessThreshold req ->
        StoredEndpoint.SuccessThreshold E
        = UpdateRequest.SuccessThreshold req)
    /\ UpdateRequest.ID req <> ""
    /\ Z.of_nat (String.length (UpdateRequest.ID req)) <= MaxKeySize
    /\ ((handleUpdateEndpoint time_ParseDuration "POST" (inr req) m).1
        = Some (reply_Updated updated) ->
        handleUpdateEndpoint time_ParseDuration "POST" (inr req) m
        = (let (now, m) := time_Now m in
           match SaveEndpoint now E d with
           | (_, inl err) =>
               (Some (reply_Error err StatusInternalServerError), m)
           | (endpoint, inr d') =>
               let m := set_db (Some d') m in
               let (_, m) :=
                 Monitor.UpdateEndpointSettings (UpdateRequest.ID req)
                                                endpoint m in
               (Some (reply_Updated endpoint), m)
           end)))
    \/ (handleUpdateEndpoint time_ParseDuration "POST" (inr req) m).1
       <> Some (reply_Updated updated)).
  { unfold handleUpdateEndpoint.
    rewrite (bool_decide_eq_true_2 ("POST" = "POST")) by done. cbn [negb].
    destruct (bool_decide (UpdateRequest.ID req = "")); [by right |].
    rewrite Hdb.
    destruct (endpoints d !! UpdateRequest.ID req) as [v |] eqn:Hlook;
      [| rewrite (GetEndpoint_None _ _ Hlook); by right].
    destruct (Hwf _ _ Hlook) as (endpoint & -> & Hsid & Hne & Hlen).
    rewrite (GetEndpoint_Doc _ _ _ Hlook).
    destruct (bool_decide (UpdateRequest.CheckInterval req = ""));
      [| destruct (time_ParseDuration (UpdateRequest.CheckInterval req))
           as [err | interval]; [by right |]];
      (destruct (bool_decide (UpdateRequest.Timeout req = ""));
       [| destruct (time_ParseDuration (UpdateRequest.Timeout req))
            as [err' | timeout]; [by right |]]);
      destruct (Z.ltb_spec 0 (UpdateRequest.FailureThreshold req));
      destruct (Z.ltb_spec 0 (UpdateRequest.SuccessThreshold req));
      left; eexists;
      (split; [| split; [| split; [| split; [exact Hne |
                 split; [exact Hlen | intros _; reflexivity]]]]]);
      cbn [stored_set_CheckInterval stored_set_Timeout
           stored_set_FailureThreshold stored_set_SuccessThreshold
           StoredEndpoint.ID StoredEndpoint.FailureThreshold
           StoredEndpoint.SuccessThreshold];
      first [exact Hsid | reflexivity | lia]. }
  destruct Hrun as [(E & HE & Hft & Hst & Hne & Hlen & Hrun) | Hno];
    [| by intros ?].
  intros Hres. specialize (Hrun Hres). rewrite Hrun in Hres |- *.
  rewrite (update_tail E (UpdateRequest.ID req) m d HE Hne Hlen)
    in Hres |- *.
  cbn [fst snd] in Hres |- *. injection Hres as Hupdated.
  set (saved := (SaveEndpoint (clock m (clock_reads m)) E d).1) in *.
  set (m1 := set_db _ (tick 1 m)).
  destruct (UpdateEndpointSettings_spec (UpdateRequest.ID req) saved m1)
    as (Hd & Ha & Hothers & _ & Hstate).
  subst updated. split; [| split; [| split; [| split; [| split]]]].
  - eexists. split; [by rewrite Hd |]. split; [| done].
    apply GetEndpoint_Doc. cbn. apply lookup_insert_eq.
  - intros Hpos. subst saved. rewrite SaveEndpoint_saved.
    cbn [StoredEndpoint.FailureThreshold]. rewrite (Hft Hpos).
    destruct (Z.eqb_spec (UpdateRequest.FailureThreshold req) 0); [lia | done].
  - intros Hpos. subst saved. rewrite SaveEndpoint_saved.
    cbn [StoredEndpoint.SuccessThreshold]. rewrite (Hst Hpos).
    destruct (Z.eqb_spec (UpdateRequest.SuccessThreshold req) 0); [lia | done].
  - intros state Hs. apply Hstate. subst m1. by destruct m.
  - intros id' Hne'. rewrite Hothers by done. subst m1. by destruct m.
  - rewrite Ha. subst m1. by destruct m.
Qed.

Lemma handleUpdateEndpoint_updates_both_witness :
  let run := handleUpdateEndpoint no_duration "POST"
               (inr (UpdateRequest.mk "API-https-x" "" "" 5 0)) api_monitor in
  exists updated state',
    run.1 = Some (reply_Updated updated)
    /\ StoredEndpoint.FailureThreshold updated = 5
    /\ StoredEndpoint.SuccessThreshold updated = 2
    /\ states run.2 !! "API-https-x" = Some state'
    /\ Endpoint.FailureThreshold (EndpointState.Endpoint state') = 5
    /\ EndpointState.Status state' = StatusUnknown.
Proof.
  intros run.
  set (updated := stored_set_FailureThreshold 5 stored_api).
  assert (Hrun : run.1 = Some (reply_Updated updated))
    by (vm_compute; reflexivity).
  destruct (handleUpdateEndpoint_updates_both no_duration
              (UpdateRequest.mk "API-https-x" "" "" 5 0) api_monitor
              api_store updated)
    as (_ & Hft & _ & Hstate & _).
  - reflexivity.
  - apply (store_wf_singleton stored_api);
      [discriminate | vm_compute; discriminate].
  - exact Hrun.
  - destruct (Hstate demo_state) as (state' & Hs & _ & Hf & _ & _ & Hst & _);
      [reflexivity |].
    exists updated, state'. split; [exact Hrun |].
    split; [apply Hft; reflexivity |]. split; [reflexivity |].
    split; [exact Hs |]. split; [| exact Hst].
    rewrite Hf. apply Hft. reflexivity.
Defined.

(** ** Enabled endpoints *)

(** X17.  On a store whose entries all decode, [GetEnabledEndpoints] returns
    no error and exactly the stored endpoints whose flag is set. *)
Theorem GetEnabledEndpoints_exactly (d : Database) :
  decodable (endpoints d) ->
  (GetEnabledEndpoints d).2 = None
  /\ forall endpoint,
       endpoint ∈ (GetEnabledEndpoints d).1
       <-> StoredEndpoint.Enabled endpoint = true
           /\ exists k, endpoints d !! k = Some (Doc endpoint).
Proof.
  intros Hdec. unfold GetEnabledEndpoints, GetAllEndpoints.
  destruct (unmarshal_each_decodable (bucket_cursor (endpoints d)) [])
    as (eps & Heq & _).
  { intros k v Hin. apply elem_of_bucket_cursor in Hin. eauto. }
  rewrite Heq. cbn [app fst snd]. split; [done |].
  pose proof (unmarshal_each_elem _ _ _ Heq) as Helem. cbn [app] in Helem.
  intros endpoint. rewrite list_elem_of_filter, Helem.
  setoid_rewrite elem_of_bucket_cursor. split.
  - intros [Hen [H | H]]; [by apply elem_of_nil in H | done].
  - intros [Hen H]. auto.
Qed.

Lemma GetEnabledEndpoints_exactly_witness :
  (GetEnabledEndpoints api_store).2 = None
  /\ forall endpoint,
       endpoint ∈ (GetEnabledEndpoints api_store).1
       <-> StoredEndpoint.Enabled endpoint = true
           /\ exists k, endpoints api_store !! k = Some (Doc endpoint).
Proof.
  apply (GetEnabledEndpoints_exactly api_store).
  intros k v Hk. cbn in Hk.
  apply lookup_singleton_Some in Hk as [_ <-]. by eexists.
Defined.

(** ** The history of one endpoint *)

(** No numeral has a colon, whatever its sign. *)
Lemma fmt_d_never_colon (z : Z) : ":"%char ∉ chars (fmt_d z).
Proof.
  destruct z as [| p | p].
  - intros H. vm_compute in H. by repeat (apply elem_of_cons in H as [[=] | H];
      try by apply elem_of_nil in H).
  - by apply fmt_d_no_colon.
  - assert (Heq : fmt_d (Z.neg p) = String "-" (fmt_d (Z.pos p))) by done.
    rewrite Heq. cbn [String.list_ascii_of_string]. intros H.
    apply elem_of_cons in H as [[=] | H].
    by apply (fmt_d_no_colon (Z.pos p)).
Qed.

Lemma history_keyed_empty : history_keyed ∅.
Proof. intros k v H. by rewrite lookup_empty in H. Qed.

Lemma history_keyed_save_all records d :
  Forall (fun record =>
            ":"%char ∉ chars (HealthCheckRecord.EndpointID record)) records ->
  history_keyed (history d) ->
  history_keyed (history (save_all records d)).
Proof.
  intros Hall. revert d. unfold save_all.
  induction Hall as [| record records Hid _ IH]; intros d Hk; [done |].
  cbn [foldl]. apply IH.
  destruct (SaveHealthCheckRecord record d) as [err | d'] eqn:Hsave; [done |].
  intros k v. rewrite (SaveHealthCheckRecord_key_of _ _ _ Hsave).
  intros Hl. apply lookup_insert_Some in Hl as [[<- <-] | [_ Hl]]; eauto.
Qed.

(** X18.  The history of an endpoint holds records of that endpoint only,
    whatever their timestamps: in a store written by
    [SaveHealthCheckRecord] for IDs without a colon (the IDs
    [generateIDWithURL] makes have none), every record the query returns
    for an ID carries that ID. *)
Theorem GetHealthHistory_only_own_records
  (endpointID : string) (limit : Z) (d : Database)
  (record : HealthCheckRecord.t) :
  history_keyed (history d) ->
  record ∈ GetHealthHistory endpointID limit d ->
  HealthCheckRecord.EndpointID record = endpointID.
Proof.
  intros Hkeyed Hin.
  apply GetHealthHistory_elem_limit, GetHealthHistory_elem in Hin
    as (k & Hk & Hp).
  destruct (Hkeyed k _ Hk) as (r & [= <-] & -> & Hid).
  symmetry. eapply colon_prefix, Hp; [done | apply fmt_d_never_colon].
Qed.

Lemma GetHealthHistory_only_own_records_witness :
  Forall (fun record => HealthCheckRecord.EndpointID record = "API-https-x")
         (GetHealthHistory "API-https-x" 1 two_widths).
Proof.
  apply Forall_forall. intros record.
  apply (GetHealthHistory_only_own_records "API-https-x" 1 two_widths record).
  apply history_keyed_save_all; [| apply history_keyed_empty].
  assert (Hid : ":"%char ∉ chars "API-https-x")
    by apply (generateIDWithURL_no_colon "API" "https://x").
  repeat (apply Forall_cons; split; [exact Hid |]). by apply Forall_nil.
Defined.

(** ** Pruning twice *)

Lemma CleanupOldData_history (Local : Location) (now : Time) (d : Database) :
  let cutoff := time_AddDate_days Local now (- DataRetentionDays) in
  CleanupOldData Local now d
  = (None,
     set_history
       (filter (fun kv => expired cutoff kv.2 = false) (history d)) d).
Proof.
  cbv zeta. unfold CleanupOldData.
  set (cutoff := time_AddDate_days Local now (- DataRetentionDays)).
  destruct (delete_keys_lookup
              (old_keys cutoff (bucket_cursor (history d)) []) (history d) 0)
    as (b' & n' & -> & Hl).
  f_equal. f_equal. apply map_eq. intros key. rewrite Hl.
  destruct (decide (key ∈ _)) as [Hin | Hnin].
  - apply elem_of_old_keys in Hin as [Hin | (v & Hin & He)];
      [by apply elem_of_nil in Hin |].
    apply elem_of_bucket_cursor in Hin. symmetry.
    apply map_lookup_filter_None. right. intros v' Hv'. cbn.
    rewrite Hin in Hv'. injection Hv' as <-. by rewrite He.
  - destruct (history d !! key) as [v |] eqn:Hk.
    + symmetry. apply map_lookup_filter_Some. split; [done |]. cbn.
      destruct (expired cutoff v) eqn:He; [| done].
      exfalso. apply Hnin, elem_of_old_keys. right.
      exists v. split; [by apply elem_of_bucket_cursor | done].
    + symmetry. apply map_lookup_filter_None. by left.
Qed.

(** X19.  Pruning is idempotent: a second prune at the same instant finds
    nothing to delete.  A prune never fails and never touches the stored
    endpoints. *)
Theorem CleanupOldData_idempotent
  (Local : Location) (now : Time) (d : Database) :
  let d' := (CleanupOldData Local now d).2 in
  (CleanupOldData Local now d).1 = None
  /\ endpoints d' = endpoints d
  /\ CleanupOldData Local now d' = (None, d').
Proof.
  cbv zeta. rewrite !CleanupOldData_history. cbn [fst snd].
  split; [done |]. split; [done |]. f_equal.
  destruct d as [eps hist]. unfold set_history. cbn. f_equal.
  apply map_eq. intros key.
  apply option_eq. intros v. rewrite !map_lookup_filter_Some. tauto.
Qed.

(** ** Names and URLs without letters or digits *)

Lemma generateIDWithURL_empty (name url : string) :
  alnums name = [] -> alnums url = [] -> generateIDWithURL name url = "".
Proof.
  intros Hname Hurl.
  pose proof (generateIDWithURL_alnums name url) as Hal.
  rewrite Hname, Hurl in Hal. unfold alnums in Hal.
  pose proof (generateIDWithURL_id_chars name url) as Hchars.
  destruct (generateIDWithURL_chars name url) as (_ & _ & Hlast).
  assert (Hnil : chars (generateIDWithURL name url) = []).
  { destruct (chars (generateIDWithURL name url)) as [| c l] using rev_ind;
      [done |].
    exfalso. apply Hlast. rewrite last_snoc. f_equal.
    apply Forall_app in Hchars as [_ Hc]. rewrite Forall_singleton in Hc.
    destruct Hc as [Hc | Hc]; [| done].
    rewrite List.filter_app in Hal. cbn in Hal. rewrite Hc in Hal.
    by destruct (List.filter is_alnum l). }
  by destruct (generateIDWithURL name url).
Qed.

Lemma SaveEndpoint_empty_ID now endpoint d :
  StoredEndpoint.ID endpoint = "" ->
  (SaveEndpoint now endpoint d).2 = inl "key required".
Proof.
  intros Hid. unfold SaveEndpoint. cbv zeta. cbn [StoredEndpoint.ID].
  by rewrite Hid.
Qed.

(** X20.  A name and a URL are required, but they need not hold a letter or a
    digit.  When neither does, the generated ID is empty, bbolt refuses
    the empty key, and the handler answers 500 with bbolt's message;
    nothing is stored and no state is added. *)
Theorem handleAddEndpoint_empty_id
  (time_ParseDuration : string -> error + Duration)
  (r : Request) (req : EndpointRequest.t) (m : Monitor) (d : Database) :
  request_Method r = "POST" ->
  request_Body r = inr req ->
  EndpointRequest.Name req <> "" ->
  EndpointRequest.URL req <> "" ->
  alnums (EndpointRequest.Name req) = [] ->
  alnums (EndpointRequest.URL req) = [] ->
  EndpointRequest.Timeout req = "" ->
  EndpointRequest.CheckInterval req = "" ->
  db m = Some d ->
  find_conflict (GetAllEndpoints d).1 req = None ->
  handleAddEndpoint time_ParseDuration r m
  = (Some (http_Error "key required" StatusInternalServerError), tick 1 m).
Proof.
  intros Hmethod Hbody Hname Hurl Haname Haurl Htimeout Hinterval Hdb Hfree.
  unfold handleAddEndpoint. rewrite Hmethod, Hbody.
  rewrite (bool_decide_eq_true_2 ("POST" = "POST")) by done. cbn [negb].
  rewrite (bool_decide_eq_false_2 (EndpointRequest.Name req = "")) by done.
  rewrite (bool_decide_eq_false_2 (EndpointRequest.URL req = "")) by done.
  cbn [orb]. cbv zeta. rewrite Hdb.
  destruct (GetAllEndpoints d) as [all err]. cbn [fst] in Hfree.
  rewrite Hfree, Htimeout, Hinterval.
  rewrite (bool_decide_eq_true_2 ("" = "")) by done.
  rewrite (generateIDWithURL_empty _ _ Haname Haurl).
  unfold AddEndpoint. rewrite Hdb, time_Now_eq.
  match goal with
  | |- context [SaveEndpoint ?now ?e d] =>
      pose proof (SaveEndpoint_empty_ID now e d eq_refl) as Hsave;
      destruct (SaveEndpoint now e d) as [saved [err' | d']]
  end; cbn [snd] in Hsave; [| done].
  by injection Hsave as ->.
Qed.

Lemma handleAddEndpoint_empty_id_witness :
  handleAddEndpoint no_duration (add_request "?" "!") api_monitor
  = (Some (http_Error "key required" StatusInternalServerError),
     tick 1 api_monitor).
Proof.
  apply (handleAddEndpoint_empty_id no_duration (add_request "?" "!")
           (EndpointRequest.mk "" "?" "!" "" "" "" 0 ∅ 0 0) api_monitor
           api_store); try reflexivity; try discriminate.
Defined.
